(** * Geocoin carrier: grid cells, cache mementos and coin transfers

    A shallow embedding of [src/main.ts] (the game state, the memento
    class [Geocache], the lifecycle pass [updateCacheLocations] and the
    two button handlers), together with the grid index that [main.ts]
    imports from [board.ts].

    Conventions.
    - JavaScript numbers that the program keeps integral (cell indices,
      array lengths, the player's purse) are [Z]; coordinates and values
      of [luck] are exact rationals [Q], so rounding of IEEE doubles is
      not part of the model.
    - A number that comes out of [Number(string)] may be [NaN], infinite
      or fractional: it lives in [JS.number].
    - [Math.cos], [Math.sin], [Math.sqrt], [Math.PI] and [luck] are
      parameters of the development.
    - Leaflet markers, popups and [alert] boxes are the presentation layer;
      only the alert text is kept, as the signal a handler returns. *)

From Stdlib Require Import ZArith QArith Qround Lqa Ascii String.
From stdpp Require Import base list strings pretty gmap.

Local Open Scope Z_scope.

(** ** JavaScript values that reach the program *)

Module JS.

(** A [number] after [Number(...)]; finite values are exact rationals. *)
Inductive number :=
| NaN
| Infinity (negative : bool)
| Finite (q : Q).

(** What a destructured array slot holds: a number, or nothing. *)
Inductive value :=
| Undefined
| Num (n : number).

Definition ofZ (z : Z) : value := Num (Finite (inject_Z z)).

(** [Array.prototype.push] cannot grow an array past this length. *)
Definition maxArrayLength : Z := 2 ^ 32 - 1.

(** *** Strings *)

Definition isDigit (c : ascii) : bool :=
  match Ascii.is_nat c with Some _ => true | None => false end.

Definition digitValue (c : ascii) : Z :=
  match Ascii.is_nat c with Some d => Z.of_nat d | None => 0 end.

(** Longest prefix of decimal digits, and what follows it. *)
Fixpoint spanDigits (s : string) : string * string :=
  match s with
  | String c s' =>
      if isDigit c
      then let '(d, r) := spanDigits s' in (String c d, r)
      else (EmptyString, s)
  | EmptyString => (EmptyString, EmptyString)
  end.

(** Value of a string of decimal digits read left to right. *)
Fixpoint digitsValue (acc : Z) (s : string) : Z :=
  match s with
  | String c s' => digitsValue (acc * 10 + digitValue c) s'
  | EmptyString => acc
  end.

Fixpoint trimLeft (s : string) : string :=
  match s with
  | String c s' => if Ascii.is_space c then trimLeft s' else s
  | EmptyString => EmptyString
  end.

Fixpoint trimRight (s : string) : string :=
  match s with
  | String c s' =>
      match trimRight s' with
      | EmptyString =>
          if Ascii.is_space c then EmptyString else String c EmptyString
      | t => String c t
      end
  | EmptyString => EmptyString
  end.

(** White space (the ASCII part of it) is stripped from both ends before
    the literal is read. *)
Definition trim (s : string) : string := trimRight (trimLeft s).

(** Digits of radix 16, 8 or 2 for the [0x], [0o] and [0b] literals. *)
Definition radixDigit (radix : Z) (c : ascii) : option Z :=
  let n := Z.of_nat (nat_of_ascii c) in
  let d :=
    if (48 <=? n) && (n <=? 57) then Some (n - 48)
    else if (97 <=? n) && (n <=? 102) then Some (n - 87)
    else if (65 <=? n) && (n <=? 70) then Some (n - 55)
    else None in
  match d with
  | Some v => if v <? radix then Some v else None
  | None => None
  end.

Fixpoint radixValue (radix acc : Z) (s : string) : option Z :=
  match s with
  | String c s' =>
      match radixDigit radix c with
      | Some d => radixValue radix (acc * radix + d) s'
      | None => None
      end
  | EmptyString => Some acc
  end.

Definition radixLiteral (radix : Z) (s : string) : number :=
  match s with
  | EmptyString => NaN
  | _ => match radixValue radix 0 s with
         | Some v => Finite (inject_Z v)
         | None => NaN
         end
  end.

(** An optional sign in front of [s]: is it a minus, and the rest. *)
Definition takeSign (s : string) : bool * string :=
  match s with
  | String c u =>
      if Ascii.eqb c "+" then (false, u)
      else if Ascii.eqb c "-" then (true, u)
      else (false, s)
  | EmptyString => (false, s)
  end.

(** The optional exponent part and the end of the literal. *)
Definition exponentPart (s : string) : option Z :=
  match s with
  | EmptyString => Some 0
  | String c s' =>
      if (Ascii.eqb c "e" || Ascii.eqb c "E")%bool then
        let '(neg, u) := takeSign s' in
        match spanDigits u with
        | (String _ _ as d, EmptyString) =>
            Some (if neg : bool then - digitsValue 0 d else digitsValue 0 d)
        | _ => None
        end
      else None
  end.

(** The fraction after the integer part: its digits and what follows. *)
Definition fractionPart (s : string) : string * string :=
  match s with
  | String c r => if Ascii.eqb c "." then spanDigits r else (EmptyString, s)
  | EmptyString => (EmptyString, s)
  end.

(** [DecimalDigits . DecimalDigits? Exp?], [. DecimalDigits Exp?] or
    [DecimalDigits Exp?]; the result is mantissa * 10 ^ exponent. *)
Definition unsignedDecimal (s : string) : option Q :=
  let '(ip, r1) := spanDigits s in
  let '(fp, r2) := fractionPart r1 in
  match ip, fp with
  | EmptyString, EmptyString => None
  | _, _ =>
      match exponentPart r2 with
      | Some e =>
          let m := digitsValue (digitsValue 0 ip) fp in
          Some (Qred (inject_Z m *
                      Qpower (10 # 1) (e - Z.of_nat (String.length fp))))
      | None => None
      end
  end.

Definition signedDecimal (s : string) : number :=
  let '(neg, u) := takeSign s in
  if String.eqb u "Infinity" then Infinity neg
  else match unsignedDecimal u with
       | Some q => Finite (if neg : bool then Qred (- q) else q)
       | None => NaN
       end.

(** The radix and the digits of a [0x], [0o] or [0b] literal. *)
Definition radixPrefix (s : string) : option (Z * string) :=
  match s with
  | String c0 (String c1 r) =>
      if Ascii.eqb c0 "0" then
        if (Ascii.eqb c1 "x" || Ascii.eqb c1 "X")%bool then Some (16, r)
        else if (Ascii.eqb c1 "o" || Ascii.eqb c1 "O")%bool then Some (8, r)
        else if (Ascii.eqb c1 "b" || Ascii.eqb c1 "B")%bool then Some (2, r)
        else None
      else None
  | _ => None
  end.

(** [Number(s)] on a string: the StringToNumber grammar. *)
Definition Number (s : string) : number :=
  match trim s with
  | EmptyString => Finite 0
  | t => match radixPrefix t with
         | Some (radix, r) => radixLiteral radix r
         | None => signedDecimal t
         end
  end.

(** [String.prototype.split(",")]. *)
Fixpoint split (sep : ascii) (s : string) : list string :=
  match s with
  | EmptyString => [EmptyString]
  | String c s' =>
      if Ascii.eqb c sep then EmptyString :: split sep s'
      else match split sep s' with
           | h :: t => String c h :: t
           | [] => [String c EmptyString]
           end
  end.

(** Fraction digits of [r / d], at most [fuel] of them. *)
Fixpoint fractionDigits (fuel : nat) (r d : Z) : string :=
  match fuel with
  | O => EmptyString
  | S fuel' =>
      if r =? 0 then EmptyString
      else String (pretty_N_char (Z.to_N (r * 10 / d)))
                  (fractionDigits fuel' (r * 10 mod d) d)
  end.

(** Number to string, as a template literal prints it.  Integers print
    in decimal (from 10^21 on JavaScript prints an exponent, which
    [Number] reads back to the same value); a fraction prints its decimal
    expansion cut after 20 digits.  The program only ever prints
    integers. *)
Definition numberToString (n : number) : string :=
  match n with
  | NaN => "NaN"
  | Infinity false => "Infinity"
  | Infinity true => "-Infinity"
  | Finite q =>
      let q := Qred q in
      let d := Zpos (Qden q) in
      if d =? 1 then pretty (Qnum q)
      else
        let a := Z.abs (Qnum q) in
        (if Qnum q <? 0 then "-" else "") +:+ pretty (a / d) +:+ "." +:+
        fractionDigits 20 (a mod d) d
  end.

Definition toString (v : value) : string :=
  match v with
  | Undefined => "undefined"
  | Num n => numberToString n
  end.

(** Element [k] of an array, [undefined] past its end. *)
Definition element (l : list number) (k : nat) : value :=
  match l !! k with
  | Some n => Num n
  | None => Undefined
  end.

(** How often the body of [for (let j = 0; j < bound; j++)] runs when
    each round pushes one element on an array: [None] when the array
    would outgrow [maxArrayLength] (the push throws, or the loop never
    ends).  Comparison with [undefined] or [NaN] is false. *)
Definition iterations (bound : value) : option nat :=
  match bound with
  | Undefined | Num NaN | Num (Infinity true) => Some O
  | Num (Infinity false) => None
  | Num (Finite q) =>
      let n := Qceiling q in
      if n <=? maxArrayLength then Some (Z.to_nat n) else None
  end.

End JS.

(** ** Data model of [main.ts] *)

Module Cell.
(** [interface Cell { i: number; j: number }] of [board.ts]. *)
Record t := mk { i : Z; j : Z }.
End Cell.

Module Coin.
Record t := mk { id : string; originatingCacheId : string }.
End Coin.

Module Cache.
Record t := mk { cell : Cell.t; coins : list Coin.t; id : string }.
End Cache.

Module LatLng.
(** [leaflet.latLng(lat, lng)]. *)
Record t := latLng { lat : Q; lng : Q }.
End LatLng.

Module Math.
(** The functions of the JavaScript [Math] object that [main.ts] calls. *)
Record lib := mk { cos : Q -> Q; sin : Q -> Q; sqrt : Q -> Q; PI : Q }.
End Math.

(** ** The grid index *)

Module Board.

(** Modelled from the spec: [board.ts] (class [Board] with
    [getCellForPoint]) is imported by [main.ts] but is not among the
    sources.  Following the spec's Grid Index, [cellAt] computes
    [i = floor(lat / cellWidth)], [j = floor(lng / cellWidth)], looks the
    pair up in a string-keyed flyweight registry and creates and
    registers a Cell record on a miss.  Cell records live in [cells] in
    allocation order; a record's position there is its identity. *)
Record t := mk {
  tileWidth : Q;
  tileVisibilityRadius : Z;
  cells : list Cell.t;
  knownCells : gmap string nat
}.

(** Modelled from the spec: [new Board(tileWidth, tileVisibilityRadius)],
    as [main.ts] calls the constructor of the missing [board.ts]; the
    registry starts empty. *)
Definition new (tileWidth : Q) (tileVisibilityRadius : Z) : t :=
  mk tileWidth tileVisibilityRadius [] ∅.

(** Modelled from the spec: the string under which the registry of the
    missing [board.ts] files the cell [(i, j)]. *)
Definition cellKey (i j : Z) : string := pretty i +:+ "," +:+ pretty j.

(** Modelled from the spec: the integer coordinates of the cell that
    contains a point ([board.ts] is missing, see [t]). *)
Definition cellOf (tileWidth : Q) (point : LatLng.t) : Cell.t :=
  Cell.mk (Qfloor (LatLng.lat point / tileWidth))
          (Qfloor (LatLng.lng point / tileWidth)).

(** Modelled from the spec: [cellAt], named [getCellForPoint] in the
    calls of [main.ts] ([board.ts] is missing, see [t]).  Returns the
    identity of the canonical Cell record and the board after the
    lookup. *)
Definition getCellForPoint (b : t) (point : LatLng.t) : nat * t :=
  let c := cellOf (tileWidth b) point in
  let key := cellKey (Cell.i c) (Cell.j c) in
  match knownCells b !! key with
  | Some r => (r, b)
  | None =>
      let r := length (cells b) in
      (r, mk (tileWidth b) (tileVisibilityRadius b)
             (cells b ++ [c]) (<[key := r]> (knownCells b)))
  end.

(** Modelled from the spec: the board of the missing [board.ts] after a
    series of lookups. *)
Definition lookups (b : t) (points : list LatLng.t) : t :=
  foldl (fun b p => snd (getCellForPoint b p)) b points.

(** Modelled from the spec: the registry of the missing [board.ts] and
    the records allocated so far agree. *)
Definition consistent (b : t) : Prop :=
  (forall (key : string) (r : nat), knownCells b !! key = Some r ->
     exists c, cells b !! r = Some c /\
               key = cellKey (Cell.i c) (Cell.j c)) /\
  (forall (r : nat) (c : Cell.t), cells b !! r = Some c ->
     knownCells b !! cellKey (Cell.i c) (Cell.j c) = Some r).

End Board.

(** ** The memento class *)

(** [interface Momento<T>]; [fromMomento] returns the receiver as it is
    after the call. *)
Class Momento (T A : Type) := {
  toMomento : A -> T;
  fromMomento : A -> T -> A
}.

Module Geocache.

Record t := mk { i : JS.value; j : JS.value; numCoins : JS.value }.

Definition toMomento (g : t) : string :=
  JS.toString (i g) +:+ "," +:+ JS.toString (j g) +:+ "," +:+
  JS.toString (numCoins g).

(** The receiver's fields are overwritten with the first three entries
    of [momento.split(",").map(Number)]. *)
Definition fromMomento (g : t) (momento : string) : t :=
  let parts := map JS.Number (JS.split "," momento) in
  mk (JS.element parts 0) (JS.element parts 1) (JS.element parts 2).

End Geocache.

(** [class Geocache implements Momento<string>]. *)
#[global] Instance Geocache_Momento : Momento string Geocache.t := {|
  toMomento := Geocache.toMomento;
  fromMomento := Geocache.fromMomento
|}.

(** ** Game state *)

Record Game := mkGame {
  playerCoins : Z;
  playerLocation : LatLng.t;
  cacheLocations : list Cache.t;
  geocacheMementos : gmap string string
}.

Definition OAKES_CLASSROOM : LatLng.t :=
  LatLng.latLng (3698949379578401 # 100000000000000)
                (-12206277128548504 # 100000000000000).

Definition tileWidth : Q := 1 # 1000.
Definition tileVisibilityRadius : Z := 3.
Definition CACHE_VISIBILITY_RADIUS : Q := 5 # 1000.
Definition MOVE_DISTANCE : Q := 1 # 10000.

(** What a button handler reports: the text of its [alert], or the
    TypeError of reading [coins] off [undefined]. *)
Inductive signal :=
| Alert (message : string)
| TypeError.

Definition EmptyCacheError : signal :=
  Alert "No coins left to collect in this cache!".
Definition NoCoinsHeldError : signal :=
  Alert "No coins available to deposit!".

Definition cacheKey (cell : Cell.t) : string :=
  pretty (Cell.i cell) +:+ "," +:+ pretty (Cell.j cell).

Definition coinId (cell : Cell.t) (j : nat) : string :=
  pretty (Cell.i cell) +:+ ":" +:+ pretty (Cell.j cell) +:+ "#" +:+ pretty j.

(** The loop that fills [coins] with [n] fresh coins. *)
Definition makeCoins (cell : Cell.t) (cacheId : string) (n : nat)
  : list Coin.t :=
  map (fun j => Coin.mk (coinId cell j) cacheId) (seq 0 n).

(** A string is truthy when it is not empty. *)
Definition truthy (s : string) : bool :=
  match s with EmptyString => false | _ => true end.

Definition setCaches (s : Game) (caches : list Cache.t) : Game :=
  mkGame (playerCoins s) (playerLocation s) caches (geocacheMementos s).

Definition setCoins (c : Cache.t) (coins : list Coin.t) : Cache.t :=
  Cache.mk (Cache.cell c) coins (Cache.id c).

(** [handleCollect(index)]; [updatePopup] only redraws. *)
Definition handleCollect (index : nat) (s : Game) : Game * signal :=
  match cacheLocations s !! index with
  | None => (s, TypeError)
  | Some cache =>
      if (0 <? length (Cache.coins cache))%nat then
        let playerCoins' := playerCoins s + 1 in
        let collectedCoin := last (Cache.coins cache) in
        let cache' := setCoins cache (removelast (Cache.coins cache)) in
        (mkGame playerCoins' (playerLocation s)
                (<[index := cache']> (cacheLocations s)) (geocacheMementos s),
         Alert ("Collected a coin with ID " +:+
                match collectedCoin with
                | Some c => Coin.id c
                | None => "undefined"
                end +:+
                ". Player now has " +:+ pretty playerCoins' +:+ " coins."))
      else (s, EmptyCacheError)
  end.

(** [handleDeposit(index)]. *)
Definition handleDeposit (index : nat) (s : Game) : Game * signal :=
  if 0 <? playerCoins s then
    match cacheLocations s !! index with
    | None => (s, TypeError)
    | Some cache =>
        let depositedCoin :=
          Coin.mk ("cache-" +:+ pretty index +:+ "-coin-" +:+
                   pretty (length (Cache.coins cache)))
                  (Cache.id cache) in
        let playerCoins' := playerCoins s - 1 in
        let cache' := setCoins cache (Cache.coins cache ++ [depositedCoin]) in
        (mkGame playerCoins' (playerLocation s)
                (<[index := cache']> (cacheLocations s)) (geocacheMementos s),
         Alert ("Deposited a coin. Player now has " +:+ pretty playerCoins' +:+
                " coins. Cache now has " +:+
                pretty (length (Cache.coins cache')) +:+ " coins."))
    end
  else (s, NoCoinsHeldError).

(** Coins in the game: the purse plus every materialized cache. *)
Definition cachedCoins (caches : list Cache.t) : Z :=
  foldr (fun c n => Z.of_nat (length (Cache.coins c)) + n) 0 caches.

Definition totalCoins (s : Game) : Z :=
  playerCoins s + cachedCoins (cacheLocations s).

(** ** Generation and the lifecycle pass *)

Section Lifecycle.

(** The [Math] object and the deterministic value generator [luck] of
    [luck.ts]. *)
Context (M : Math.lib) (luck : string -> Q).

Definition cacheIdOf (i : nat) : string := "cache-" +:+ pretty i.

Definition generateNumberOfCoins (cacheId : string) : Z :=
  let baseKey := cacheId +:+ ",coins" in
  Qfloor (luck baseKey * 10 + 1).

(** Where cache [cacheId] is placed around [center]: the offset
    computation shared by [initializeCacheLocations] and
    [updateCacheLocations]. *)
Definition placeCache (center : LatLng.t) (radius : Q) (cacheId : string)
  : LatLng.t :=
  let angle := (2 * Math.PI M * luck (cacheId +:+ "-angle"))%Q in
  let distance := (radius * luck (cacheId +:+ "-distance"))%Q in
  let offsetLat := (distance * Math.cos M angle / 111139)%Q in
  let offsetLng :=
    (distance * Math.sin M angle /
     (111139 * Math.cos M (LatLng.lat center * Math.PI M / 180)))%Q in
  LatLng.latLng (LatLng.lat center + offsetLat)
                (LatLng.lng center + offsetLng).

Definition isCacheVisible (cacheLocation playerPosition : LatLng.t) : bool :=
  let distanceLat :=
    ((LatLng.lat cacheLocation - LatLng.lat playerPosition) * 111139)%Q in
  let distanceLng :=
    ((LatLng.lng cacheLocation - LatLng.lng playerPosition) *
     (111139 * Math.cos M (LatLng.lat playerPosition * Math.PI M / 180)))%Q in
  let distance := Math.sqrt M (distanceLat ^ 2 + distanceLng ^ 2)%Q in
  Qle_bool distance CACHE_VISIBILITY_RADIUS.

(** One round of the loop of [initializeCacheLocations]: the cache it
    pushes, [None] when the coin loop does not come to an end. *)
Definition initialCache (center : LatLng.t) (radius : Q) (i : nat)
  : option Cache.t :=
  let cacheId := cacheIdOf i in
  let cell := Board.cellOf tileWidth (placeCache center radius cacheId) in
  let numCoins := generateNumberOfCoins cacheId in
  match JS.iterations (JS.ofZ numCoins) with
  | Some n => Some (Cache.mk cell (makeCoins cell cacheId n) cacheId)
  | None => None
  end.

(** [initializeCacheLocations(center, numCaches, radius)] pushes
    [numCaches] generated caches. *)
Definition initializeCacheLocations
  (center : LatLng.t) (numCaches : nat) (radius : Q) (s : Game)
  : option Game :=
  match mapM (initialCache center radius) (seq 0 numCaches) with
  | Some caches => Some (setCaches s (cacheLocations s ++ caches))
  | None => None
  end.

(** First half of the pass: one memento per live cache, in list order,
    keyed by the cache's cell. *)
Definition saveMemento (mementos : gmap string string) (cache : Cache.t)
  : gmap string string :=
  let key := cacheKey (Cache.cell cache) in
  <[key := toMomento
             (Geocache.mk (JS.ofZ (Cell.i (Cache.cell cache)))
                          (JS.ofZ (Cell.j (Cache.cell cache)))
                          (JS.ofZ (Z.of_nat (length (Cache.coins cache)))))]>
    mementos.

Definition saveMementos (caches : list Cache.t)
  (mementos : gmap string string) : gmap string string :=
  foldl saveMemento mementos caches.

(** The coin count the pass settles on for a visible candidate. *)
Definition restoredOrGenerated (mementos : gmap string string)
  (cell : Cell.t) (cacheId : string) : JS.value :=
  match mementos !! cacheKey cell with
  | Some momento =>
      if truthy momento then
        let geocache :=
          Geocache.mk (JS.ofZ (Cell.i cell)) (JS.ofZ (Cell.j cell))
                      (JS.ofZ 0) in
        Geocache.numCoins (fromMomento geocache momento)
      else JS.ofZ (generateNumberOfCoins cacheId)
  | None => JS.ofZ (generateNumberOfCoins cacheId)
  end.

(** One round of [for (let i = 0; i < 5; i++)]:
    - [Some (Some cache)], the cache pushed for a visible candidate;
    - [Some None], nothing pushed (the candidate is not visible);
    - [None], the coin loop does not come to an end. *)
Definition materialize (mementos : gmap string string)
  (player : LatLng.t) (i : nat) : option (option Cache.t) :=
  let cacheId := cacheIdOf i in
  let cacheLocation := placeCache player CACHE_VISIBILITY_RADIUS cacheId in
  if isCacheVisible cacheLocation player then
    let cell := Board.cellOf tileWidth cacheLocation in
    let numCoins := restoredOrGenerated mementos cell cacheId in
    match JS.iterations numCoins with
    | Some n => Some (Some (Cache.mk cell (makeCoins cell cacheId n) cacheId))
    | None => None
    end
  else Some None.

(** The rounds for the indices in [slots], pushing on [caches]. *)
Fixpoint regenerate (mementos : gmap string string) (player : LatLng.t)
  (slots : list nat) (caches : list Cache.t) : option (list Cache.t) :=
  match slots with
  | [] => Some caches
  | i :: slots' =>
      match materialize mementos player i with
      | Some (Some cache) =>
          regenerate mementos player slots' (caches ++ [cache])
      | Some None => regenerate mementos player slots' caches
      | None => None
      end
  end.

(** [updateCacheLocations()]: [None] when the pass does not return. *)
Definition updateCacheLocations (s : Game) : option Game :=
  let mementos := saveMementos (cacheLocations s) (geocacheMementos s) in
  match regenerate mementos (playerLocation s) (seq 0 5) [] with
  | Some caches =>
      Some (mkGame (playerCoins s) (playerLocation s) caches mementos)
  | None => None
  end.

Inductive direction := north | south | east | west.

(** [movePlayer(direction)], without the movement history and the
    saved game. *)
Definition movePlayer (d : direction) (s : Game) : option Game :=
  let p := playerLocation s in
  let p' :=
    match d with
    | north => LatLng.latLng (LatLng.lat p + MOVE_DISTANCE) (LatLng.lng p)
    | south => LatLng.latLng (LatLng.lat p - MOVE_DISTANCE) (LatLng.lng p)
    | east => LatLng.latLng (LatLng.lat p) (LatLng.lng p + MOVE_DISTANCE)
    | west => LatLng.latLng (LatLng.lat p) (LatLng.lng p - MOVE_DISTANCE)
    end in
  updateCacheLocations
    (mkGame (playerCoins s) p' (cacheLocations s) (geocacheMementos s)).

(** The cell in which round [i] of the pass puts its cache, if the
    candidate is visible. *)
Definition slotCell (player : LatLng.t) (i : nat) : option Cell.t :=
  let cacheLocation :=
    placeCache player CACHE_VISIBILITY_RADIUS (cacheIdOf i) in
  if isCacheVisible cacheLocation player
  then Some (Board.cellOf tileWidth cacheLocation)
  else None.

End Lifecycle.

(** The state of the module when it is loaded, before
    [initializeCacheLocations(OAKES_CLASSROOM, 5, 100)]. *)
Definition initialGame : Game := mkGame 0 OAKES_CLASSROOM [] ∅.

(** ** A concrete instance, to run the program on *)

Definition clamp (lo hi x : Q) : Q :=
  if Qle_bool x lo then lo else if Qle_bool hi x then hi else x.

(** Rational stand-ins for the [Math] functions: truncated Taylor
    polynomials kept within [-1, 1], and an integer square root on six
    decimals.  They are exact at 0, where the runs below evaluate them. *)
Definition polyMath : Math.lib :=
  Math.mk (fun x => clamp (-1) 1 (1 - x ^ 2 / 2 + x ^ 4 / 24))%Q
          (fun x => clamp (-1) 1 (x - x ^ 3 / 6))%Q
          (fun x => Z.sqrt (Qfloor (x * 1000000000000)) # 1000000)
          (355 # 113).

(** A value generator given by a finite table; keys off the table draw 0. *)
Definition tableLuck (table : list (string * Q)) (key : string) : Q :=
  match list_find (fun kv => String.eqb (fst kv) key = true) table with
  | Some (_, (_, v)) => v
  | None => 0%Q
  end.

(** Every cache is placed due north ([angle] draws 0) at half the radius;
    the coin draws give 4, 2, 3, 6 and 7 coins. *)
Definition demoLuck : string -> Q :=
  tableLuck [ ("cache-0,coins", 37 # 100); ("cache-1,coins", 1 # 10);
              ("cache-2,coins", 25 # 100); ("cache-3,coins", 1 # 2);
              ("cache-4,coins", 62 # 100);
              ("cache-0-distance", 1 # 2); ("cache-1-distance", 1 # 2);
              ("cache-2-distance", 1 # 2); ("cache-3-distance", 1 # 2);
              ("cache-4-distance", 1 # 2) ]%string.

(** The program as [main.ts] runs it when loaded with an empty
    [localStorage]: five initial caches, then one lifecycle pass. *)
Definition startGame (M : Math.lib) (luck : string -> Q) : option Game :=
  match initializeCacheLocations M luck OAKES_CLASSROOM 5 100 initialGame with
  | Some s => updateCacheLocations M luck s
  | None => None
  end.

Definition coinCounts (s : Game) : list nat :=
  map (fun c => length (Cache.coins c)) (cacheLocations s).


(** ** Small game states *)

Definition cell55 : Cell.t := Cell.mk 5 5.

(** A point well inside cell (5, 5). *)
Definition point55 : LatLng.t := LatLng.latLng (55 # 10000) (55 # 10000).

(** A generated cache: [n] coins with the ids the generation loop gives. *)
Definition cacheWith (cell : Cell.t) (cacheId : string) (n : nat) : Cache.t :=
  Cache.mk cell (makeCoins cell cacheId n) cacheId.

(** One cache with three coins and an empty purse. *)
Definition threeCoinGame : Game :=
  mkGame 0 point55 [cacheWith cell55 "cache-0" 3] ∅.


(** One cache with three coins and a purse of two. *)
Definition purseGame : Game :=
  mkGame 2 point55 [cacheWith cell55 "cache-0" 3] ∅.

(** ** Notions used in the statements *)

(** Every character of [s] passes the test [p]. *)
Fixpoint allChars (p : ascii -> bool) (s : string) : bool :=
  match s with
  | String c s' => p c && allChars p s'
  | EmptyString => true
  end.

(** A decimal numeral: digits only, at least one. *)
Definition numeral (d : string) : Prop :=
  allChars JS.isDigit d = true /\ d <> EmptyString.

(** The memento that the pass saves for a cache in [cell] with [n] coins. *)
Definition mementoOf (cell : Cell.t) (n : nat) : string :=
  Geocache.toMomento
    (Geocache.mk (JS.ofZ (Cell.i cell)) (JS.ofZ (Cell.j cell))
                 (JS.ofZ (Z.of_nat n))).

(** [cache] is live and no cache after it in the list is in its cell. *)
Definition lastInCell (caches : list Cache.t) (cache : Cache.t) : Prop :=
  exists front back,
    caches = front ++ cache :: back /\
    Forall (fun c => Cache.cell c <> Cache.cell cache) back.

(** No live cache is in [cell]. *)
Definition noCacheIn (caches : list Cache.t) (cell : Cell.t) : Prop :=
  Forall (fun c => Cache.cell c <> cell) caches.

(** Every stored memento was written by the pass for a cache whose coin
    list fits an array. *)
Definition soundMementos (mementos : gmap string string) : Prop :=
  forall (key momento : string),
    mementos !! key = Some momento ->
    exists cell n,
      Z.of_nat n <= JS.maxArrayLength /\ momento = mementoOf cell n.

(** The coin count [fromMomento] reads off [momento] is missing or is not
    a number. *)
Definition countless (momento : string) : Prop :=
  let count :=
    Geocache.numCoins
      (Geocache.fromMomento
         (Geocache.mk JS.Undefined JS.Undefined JS.Undefined) momento) in
  count = JS.Undefined \/ count = JS.Num JS.NaN.

(** Two caches in cell (5, 5), with 2 and 7 coins. *)
Definition sharedCellGame : Game :=
  mkGame 0 point55
         [cacheWith cell55 "cache-0" 2; cacheWith cell55 "cache-1" 7] ∅.

(** No live cache, and a memento for cell (5, 5) without a readable
    count. *)
Definition malformedGame : Game :=
  mkGame 0 point55 [] {["5,5" := "5,5,abc"]}.

(** A one-coin cache and an empty one, both in cell (5, 5). *)
Definition twoCacheGame : Game :=
  mkGame 0 point55
         [cacheWith cell55 "cache-0" 1; cacheWith cell55 "cache-1" 0] ∅.

(** The mementos are sound and every live coin list fits an array. *)
Definition fitting (s : Game) : Prop :=
  soundMementos (geocacheMementos s) /\
  Forall (fun c => Z.of_nat (length (Cache.coins c)) <= JS.maxArrayLength)
         (cacheLocations s).

(** The value generator stays in [0, 1). *)
Definition unitLuck (luck : string -> Q) : Prop :=
  forall key : string, (0 <= luck key)%Q /\ (luck key < 1)%Q.

(** [twoCacheGame] after a collect from the first cache, and then a
    deposit into the second. *)
Definition afterCollect : Game := fst (handleCollect 0 twoCacheGame).
Definition afterDeposit : Game := fst (handleDeposit 1 afterCollect).

(** ** Where the candidates of a pass fall *)

(** More than the largest offset, in degrees, that [placeCache] gives a
    candidate of the pass (0.005 m, at latitudes up to 60 degrees). *)
Definition margin : Q := 1 # 10000000.

(** The player is at least [margin] away from the border of the cell. *)
Definition interior (player : LatLng.t) : Prop :=
  Qfloor ((LatLng.lat player - margin) / tileWidth) =
  Qfloor ((LatLng.lat player + margin) / tileWidth) /\
  Qfloor ((LatLng.lng player - margin) / tileWidth) =
  Qfloor ((LatLng.lng player + margin) / tileWidth).

(** What the development asks of cosine and sine: values in [-1, 1], and
    a cosine of the player's latitude of at least one half. *)
Definition boundedTrig (M : Math.lib) (player : LatLng.t) : Prop :=
  (forall x : Q, (-1 <= Math.cos M x)%Q /\ (Math.cos M x <= 1)%Q) /\
  (forall x : Q, (-1 <= Math.sin M x)%Q /\ (Math.sin M x <= 1)%Q) /\
  (1 # 2 <= Math.cos M (LatLng.lat player * Math.PI M / 180))%Q.

(** ** The rest of the session: history, saved game, geolocation, reset *)

Module CacheData.
(** [interface CacheData]. *)
Record t := mk { id : string; coins : list Coin.t; cell : Cell.t }.
End CacheData.

Module GameState.
(** [interface GameState]: the object that [saveGameState] hands to
    [JSON.stringify] and that [JSON.parse] gives back to
    [loadGameState]. *)
Record t := mk {
  playerCoins : Z;
  playerPosition : LatLng.t;
  cacheLocations : list CacheData.t;
  movementHistory : list LatLng.t
}.
End GameState.

(** The module-level state of [main.ts] besides the map: the game, the
    movement history, the item [gameState] of [localStorage] (as the
    object its JSON text encodes, [None] when the item is absent), the
    flag [geolocationActive], and how many callbacks
    [navigator.geolocation.watchPosition] has registered. *)
Record Session := mkSession {
  game : Game;
  movementHistory : list LatLng.t;
  localStorage : option GameState.t;
  geolocationActive : bool;
  watchers : nat
}.

Definition setGame (ss : Session) (g : Game) : Session :=
  mkSession g (movementHistory ss) (localStorage ss) (geolocationActive ss)
            (watchers ss).

(** [x || 0] on a number. *)
Definition orZero (x : Z) : Z := if x =? 0 then 0 else x.

Definition toCacheData (cache : Cache.t) : CacheData.t :=
  CacheData.mk (Cache.id cache) (Cache.coins cache) (Cache.cell cache).

Definition ofCacheData (cacheData : CacheData.t) : Cache.t :=
  Cache.mk (CacheData.cell cacheData) (CacheData.coins cacheData)
           (CacheData.id cacheData).

(** The object that [saveGameState] builds from the current state. *)
Definition gameStateOf (ss : Session) : GameState.t :=
  GameState.mk (playerCoins (game ss))
               (LatLng.latLng (LatLng.lat (playerLocation (game ss)))
                              (LatLng.lng (playerLocation (game ss))))
               (map toCacheData (cacheLocations (game ss)))
               (map (fun location =>
                       LatLng.latLng (LatLng.lat location)
                                     (LatLng.lng location))
                    (movementHistory ss)).

Module App.

(** [updateMovementHistory(newPosition)]; the polyline is redrawn. *)
Definition updateMovementHistory (newPosition : LatLng.t) (ss : Session)
  : Session :=
  mkSession (game ss) (movementHistory ss ++ [newPosition]) (localStorage ss)
            (geolocationActive ss) (watchers ss).

(** [saveGameState()]. *)
Definition saveGameState (ss : Session) : Session :=
  mkSession (game ss) (movementHistory ss) (Some (gameStateOf ss))
            (geolocationActive ss) (watchers ss).

(** [toggleGeolocation()]; [supported] tells whether
    [navigator.geolocation] is there.  Switching on registers one more
    position callback; switching off only clears the flag. *)
Definition toggleGeolocation (supported : bool) (ss : Session)
  : Session * signal :=
  if geolocationActive ss then
    (mkSession (game ss) (movementHistory ss) (localStorage ss) false
               (watchers ss),
     Alert "Geolocation tracking disabled.")
  else if supported then
    (mkSession (game ss) (movementHistory ss) (localStorage ss) true
               (S (watchers ss)),
     Alert "Geolocation tracking enabled.")
  else (ss, Alert "Geolocation is not supported by your browser.").

(** The click listeners that [updatePopup] puts on the two buttons:
    the handler, then [updatePopup(index)], then [saveGameState()].
    The result lists what the user gets to see, in order.  A TypeError
    ends the listener there: in the handler when there is no cache at
    [index], and otherwise in [updatePopup], which reads
    [cacheLocations[index].cell] first. *)
Definition onCollectClick (index : nat) (ss : Session)
  : Session * list signal :=
  match handleCollect index (game ss) with
  | (_, TypeError) => (ss, [TypeError])
  | (g, report) =>
      match cacheLocations g !! index with
      | Some _ => (saveGameState (setGame ss g), [report])
      | None => (setGame ss g, [report; TypeError])
      end
  end.

Definition onDepositClick (index : nat) (ss : Session)
  : Session * list signal :=
  match handleDeposit index (game ss) with
  | (_, TypeError) => (ss, [TypeError])
  | (g, report) =>
      match cacheLocations g !! index with
      | Some _ => (saveGameState (setGame ss g), [report])
      | None => (setGame ss g, [report; TypeError])
      end
  end.

(** The click listener on a coin identifier of the popup:
    [centerMapOnCache] only moves the view. *)
Definition onCoinClick (ss : Session) : Session := saveGameState ss.

Section WithLuck.

Context (M : Math.lib) (luck : string -> Q).

(** [movePlayer(direction)] in full: the new position, the pass, the
    movement history, the saved game.  [None] when the pass does not
    return. *)
Definition movePlayer (d : direction) (ss : Session) : option Session :=
  match movePlayer M luck d (game ss) with
  | Some g =>
      Some (saveGameState
              (updateMovementHistory (playerLocation g) (setGame ss g)))
  | None => None
  end.

(** [handleGeolocationUpdate(position)] with the coordinates of
    [position.coords]. *)
Definition handleGeolocationUpdate (latitude longitude : Q) (ss : Session)
  : option Session :=
  let g := game ss in
  match updateCacheLocations M luck
          (mkGame (playerCoins g) (LatLng.latLng latitude longitude)
                  (cacheLocations g) (geocacheMementos g)) with
  | Some g' => Some (setGame ss g')
  | None => None
  end.


(** [resetGame()]; [confirmReset] is the answer to the confirm box. *)
Definition resetGame (confirmReset : bool) (ss : Session)
  : option (Session * signal) :=
  if confirmReset then
    let g := game ss in
    match initializeCacheLocations M luck OAKES_CLASSROOM 5 100
            (mkGame 0 (playerLocation g) [] (geocacheMementos g)) with
    | Some g' =>
        Some (mkSession
                (mkGame (playerCoins g') OAKES_CLASSROOM (cacheLocations g')
                        (geocacheMementos g'))
                [] None (geolocationActive ss) (watchers ss),
              Alert "Game has been reset. All coins are returned, and history is cleared.")
    | None => None
    end
  else Some (ss, Alert "Game reset canceled.").

(** [loadGameState()]. *)
Definition loadGameState (ss : Session) : option Session :=
  match localStorage ss with
  | Some gameState =>
      let g :=
        mkGame (orZero (GameState.playerCoins gameState))
               (LatLng.latLng
                  (LatLng.lat (GameState.playerPosition gameState))
                  (LatLng.lng (GameState.playerPosition gameState)))
               (map ofCacheData (GameState.cacheLocations gameState))
               (geocacheMementos (game ss)) in
      match updateCacheLocations M luck g with
      | Some g' =>
          Some (mkSession g'
                  (map (fun location =>
                          LatLng.latLng (LatLng.lat location)
                                        (LatLng.lng location))
                       (GameState.movementHistory gameState))
                  (localStorage ss) (geolocationActive ss) (watchers ss))
      | None => None
      end
  | None => Some ss
  end.

(** The module body of [main.ts] from top to bottom, with [stored] in
    [localStorage]: the initial caches, the first pass, the saved game. *)
Definition boot (stored : option GameState.t) : option Session :=
  match initializeCacheLocations M luck OAKES_CLASSROOM 5 100 initialGame with
  | Some g =>
      match updateCacheLocations M luck g with
      | Some g' => loadGameState (mkSession g' [] stored false 0)
      | None => None
      end
  | None => None
  end.

End WithLuck.

End App.

(** ** Sequences of clicks *)

Inductive click :=
| Collect (index : nat)
| Deposit (index : nat).

Definition clickIndex (c : click) : nat :=
  match c with Collect index | Deposit index => index end.

(** The game after the handler of one click. *)
Definition press (c : click) (s : Game) : Game :=
  match c with
  | Collect index => fst (handleCollect index s)
  | Deposit index => fst (handleDeposit index s)
  end.

Definition pressAll (cs : list click) (s : Game) : Game :=
  foldl (fun s c => press c s) s cs.


(** A small session around [purseGame]. *)
Definition purseSession : Session := mkSession purseGame [] None false 0.

#[global] Instance Cell_eq_dec : EqDecision Cell.t.
Proof. solve_decision. Defined.

(** The live caches that are in [cell], in list order. *)
Definition cachesIn (cell : Cell.t) (caches : list Cache.t) : list Cache.t :=
  filter (fun c => Cache.cell c = cell) caches.

(** The rounds of a pass whose candidate passes the visibility test. *)
Definition visibleSlots (M : Math.lib) (luck : string -> Q)
  (player : LatLng.t) (slots : list nat) : list nat :=
  List.filter
    (fun k =>
       isCacheVisible M
         (placeCache M luck player CACHE_VISIBILITY_RADIUS (cacheIdOf k))
         player)
    slots.

(** A point well inside cell (6, 5), one cell north of [point55]. *)
Definition point65 : LatLng.t := LatLng.latLng (65 # 10000) (55 # 10000).

Definition moveTo (p : LatLng.t) (s : Game) : Game :=
  mkGame (playerCoins s) p (cacheLocations s) (geocacheMementos s).

(** The game after a pass under the stand-in functions (the game itself,
    should the pass not return). *)
Definition passed (s : Game) : Game :=
  default s (updateCacheLocations polyMath demoLuck s).

(** [threeCoinGame] after a pass, after a pass one cell to the north, and
    after a pass back at the first position. *)
Definition evictedGame : Game := passed threeCoinGame.
Definition awayGame : Game := passed (moveTo point65 evictedGame).
Definition returnedGame : Game := passed (moveTo point55 awayGame).

(** ** Runs of the session *)

(** Several moves in a row; [None] as soon as a pass does not return. *)
Fixpoint moves (M : Math.lib) (luck : string -> Q) (ds : list direction)
  (ss : Session) : option Session :=
  match ds with
  | [] => Some ss
  | d :: ds' =>
      match App.movePlayer M luck d ss with
      | Some ss' => moves M luck ds' ss'
      | None => None
      end
  end.

(** What can happen to a session once the page is loaded. *)
Inductive step (M : Math.lib) (luck : string -> Q) : Session -> Session -> Prop :=
| step_move d ss ss' :
    App.movePlayer M luck d ss = Some ss' -> step M luck ss ss'
| step_position latitude longitude ss ss' :
    App.handleGeolocationUpdate M luck latitude longitude ss = Some ss' ->
    step M luck ss ss'
| step_collect index ss :
    step M luck ss (fst (App.onCollectClick index ss))
| step_deposit index ss :
    step M luck ss (fst (App.onDepositClick index ss))
| step_coin ss :
    step M luck ss (App.onCoinClick ss)
| step_toggle supported ss :
    step M luck ss (fst (App.toggleGeolocation supported ss))
| step_reset confirmReset ss ss' report :
    App.resetGame M luck confirmReset ss = Some (ss', report) ->
    step M luck ss ss'.

(** The sessions that the page can be in: loaded with [stored] in
    [localStorage], then any number of steps. *)
Definition reachable (M : Math.lib) (luck : string -> Q)
  (stored : option GameState.t) (ss : Session) : Prop :=
  exists ss0, App.boot M luck stored = Some ss0 /\ rtc (step M luck) ss0 ss.

(** The id that [handleDeposit] gives the coin it pushes at position [k]
    of the cache at [index]. *)
Definition mintedId (index k : nat) : string :=
  "cache-" +:+ pretty index +:+ "-coin-" +:+ pretty k.

(** Every coin of the cache at [index] is named after its position. *)
Definition numbered (index : nat) (c : Cache.t) : Prop :=
  forall (k : nat) (coin : Coin.t),
    Cache.coins c !! k = Some coin ->
    Coin.id coin = coinId (Cache.cell c) k \/ Coin.id coin = mintedId index k.

(** The shape of the live caches in every reachable session. *)
Definition tidy (g : Game) : Prop :=
  map Cache.id (cacheLocations g) `sublist_of` map cacheIdOf (seq 0 5) /\
  (forall (index : nat) (c : Cache.t),
     cacheLocations g !! index = Some c -> numbered index c).


(** A value generator that puts the initial caches 99 m north of the
    classroom, one cell away, and gives every cache 4 coins. *)
Definition farLuck : string -> Q :=
  tableLuck [ ("cache-0,coins", 37 # 100); ("cache-1,coins", 37 # 100);
              ("cache-2,coins", 37 # 100); ("cache-3,coins", 37 # 100);
              ("cache-4,coins", 37 # 100);
              ("cache-0-distance", 99 # 100); ("cache-1-distance", 99 # 100);
              ("cache-2-distance", 99 # 100); ("cache-3-distance", 99 # 100);
              ("cache-4-distance", 99 # 100) ]%string.

(** A session in the classroom's cell whose memento for that cell says
    one coin. *)
Definition staleSession : Session :=
  mkSession (mkGame 3 OAKES_CLASSROOM []
                    {["36989,-122063" := "36989,-122063,1"]})
            [OAKES_CLASSROOM] None false 0.

(** The session right after the page is loaded with nothing stored
    ([purseSession] stands in if the loading did not return). *)
Definition bootedSession : Session :=
  default purseSession (App.boot polyMath demoLuck None).

(** Then a click on Collect and a click on Deposit at the first cache. *)
Definition clickedSession : Session :=
  fst (App.onDepositClick 0 (fst (App.onCollectClick 0 bootedSession))).

(** [staleSession] after a confirmed reset, and the game after the next
    pass, both with [farLuck]. *)
Definition resetSession : Session :=
  default staleSession
    (fst <$> App.resetGame polyMath farLuck true staleSession).

Definition afterResetPass : Game :=
  default initialGame (updateCacheLocations polyMath farLuck (game resetSession)).

(** The classroom's cell. *)
Definition oakesCell : Cell.t := Cell.mk 36989 (-122063).

(** A saved game at [point55] without live caches, and the session that
    loading the page with it gives. *)
Definition emptySave : GameState.t := GameState.mk 2 point55 [] [point55].

Definition reloadedSession : Session :=
  default purseSession (App.boot polyMath demoLuck (Some emptySave)).

(** The five caches that [initializeCacheLocations] pushes at the start. *)
Definition firstCaches : list Cache.t :=
  match initializeCacheLocations polyMath demoLuck OAKES_CLASSROOM 5 100
          initialGame with
  | Some g => cacheLocations g
  | None => []
  end.


(** ** What the visibility test asks of [Math] *)


(** * Properties *)

(** ** The button handlers *)

Section Handlers.

Implicit Types (s : Game) (index : nat) (cache : Cache.t).

Lemma removelast_length_S {A} (l : list A) :
  l <> [] -> S (length (removelast l)) = length l.
Proof.
  intros Hl. destruct (exists_last Hl) as (rest & x & ->).
  rewrite removelast_last, length_app. simpl. lia.
Qed.

Lemma cachedCoins_app (l1 l2 : list Cache.t) :
  cachedCoins (l1 ++ l2) = cachedCoins l1 + cachedCoins l2.
Proof. induction l1 as [|c l1 IH]; simpl; [reflexivity | rewrite IH; lia]. Qed.

(** Replacing the cache at [index] shifts the total by the difference of
    the two coin lists' lengths. *)
Lemma cachedCoins_insert (l : list Cache.t) index cache cache' :
  l !! index = Some cache ->
  cachedCoins (<[index := cache']> l) =
  cachedCoins l - Z.of_nat (length (Cache.coins cache))
                + Z.of_nat (length (Cache.coins cache')).
Proof.
  revert index. induction l as [|c l IH]; intros [|k] Hk; simpl in *;
    try discriminate.
  - injection Hk as ->. lia.
  - rewrite (IH k Hk). lia.
Qed.

Lemma handleCollect_some s index cache :
  cacheLocations s !! index = Some cache ->
  Cache.coins cache <> [] ->
  exists message,
    handleCollect index s =
    (mkGame (playerCoins s + 1) (playerLocation s)
            (<[index := setCoins cache (removelast (Cache.coins cache))]>
               (cacheLocations s))
            (geocacheMementos s),
     Alert message).
Proof.
  intros Hk Hne. unfold handleCollect. rewrite Hk.
  destruct (Cache.coins cache) as [|c l] eqn:E; [congruence|].
  eexists. reflexivity.
Qed.

Lemma handleCollect_empty s index cache :
  cacheLocations s !! index = Some cache ->
  Cache.coins cache = [] ->
  handleCollect index s = (s, EmptyCacheError).
Proof. intros Hk He. unfold handleCollect. rewrite Hk, He. reflexivity. Qed.

Lemma handleDeposit_some s index cache :
  cacheLocations s !! index = Some cache ->
  0 < playerCoins s ->
  exists message,
    handleDeposit index s =
    (mkGame (playerCoins s - 1) (playerLocation s)
            (<[index :=
                 setCoins cache
                   (Cache.coins cache ++
                    [Coin.mk ("cache-" +:+ pretty index +:+ "-coin-" +:+
                              pretty (length (Cache.coins cache)))
                             (Cache.id cache)])]>
               (cacheLocations s))
            (geocacheMementos s),
     Alert message).
Proof.
  intros Hk Hp. unfold handleDeposit. rewrite Hk.
  destruct (Z.ltb_spec 0 (playerCoins s)); [|lia].
  eexists. reflexivity.
Qed.

Lemma handleDeposit_broke s index :
  playerCoins s <= 0 -> handleDeposit index s = (s, NoCoinsHeldError).
Proof.
  intros Hp. unfold handleDeposit.
  destruct (Z.ltb_spec 0 (playerCoins s)); [lia | reflexivity].
Qed.

End Handlers.






(** ** Generation *)

Lemma Qfloor_unique (x : Q) (z : Z) :
  (inject_Z z <= x)%Q -> (x < inject_Z (z + 1))%Q -> Qfloor x = z.
Proof.
  intros Hle Hlt.
  assert (z <= Qfloor x).
  { rewrite <- (Qfloor_Z z). apply Qfloor_resp_le. exact Hle. }
  assert (Qfloor x < z + 1).
  { rewrite Zlt_Qlt. eapply Qle_lt_trans; [apply Qfloor_le | exact Hlt]. }
  lia.
Qed.

Lemma Qfloor_plus_1 (x : Q) : Qfloor (x + 1) = Qfloor x + 1.
Proof.
  apply Qfloor_unique.
  - rewrite inject_Z_plus. apply Qplus_le_compat; [apply Qfloor_le|].
    apply Qle_refl.
  - replace (Qfloor x + 1 + 1) with ((Qfloor x + 1) + 1) by lia.
    rewrite (inject_Z_plus (Qfloor x + 1) 1).
    apply Qplus_lt_le_compat; [apply Qlt_floor | apply Qle_refl].
Qed.

Lemma generateNumberOfCoins_floor (luck : string -> Q) (cacheId : string) :
  generateNumberOfCoins luck cacheId =
  Qfloor (luck (cacheId +:+ ",coins") * 10) + 1.
Proof. unfold generateNumberOfCoins. apply Qfloor_plus_1. Qed.

Lemma generateNumberOfCoins_range (luck : string -> Q) (cacheId : string) :
  (0 <= luck (cacheId +:+ ",coins"))%Q ->
  (luck (cacheId +:+ ",coins") < 1)%Q ->
  1 <= generateNumberOfCoins luck cacheId <= 10.
Proof.
  intros H0 H1. rewrite generateNumberOfCoins_floor.
  set (v := luck (cacheId +:+ ",coins")) in *.
  assert (Hlo : 0 <= Qfloor (v * 10)).
  { rewrite <- (Qfloor_Z 0). apply Qfloor_resp_le.
    change (inject_Z 0) with (0 * 10)%Q.
    apply Qmult_le_compat_r; [exact H0 | discriminate]. }
  assert (Hhi : Qfloor (v * 10) < 10).
  { rewrite Zlt_Qlt. eapply Qle_lt_trans; [apply Qfloor_le|].
    change (inject_Z 10) with (1 * 10)%Q.
    apply Qmult_lt_compat_r; [reflexivity | exact H1]. }
  lia.
Qed.



(** ** Decimal strings: printing an integer and reading it back *)

Section Decimal.

Lemma append_cons c s t : String c s +:+ t = String c (s +:+ t).
Proof. reflexivity. Qed.

Lemma append_assoc s t u : (s +:+ t) +:+ u = s +:+ (t +:+ u).
Proof.
  induction s as [|c s IH]; [reflexivity|].
  rewrite !append_cons, IH. reflexivity.
Qed.

Lemma append_nil_r s : s +:+ "" = s.
Proof.
  induction s as [|c s IH]; [reflexivity|]. rewrite append_cons, IH.
  reflexivity.
Qed.

Lemma length_append s t :
  String.length (s +:+ t) = (String.length s + String.length t)%nat.
Proof.
  induction s as [|c s IH]; [reflexivity|]. rewrite append_cons. simpl.
  rewrite IH. reflexivity.
Qed.

Lemma allChars_app p s t :
  allChars p (s +:+ t) = allChars p s && allChars p t.
Proof.
  induction s as [|c s IH]; [reflexivity|].
  change (String c s +:+ t) with (String c (s +:+ t)). simpl.
  rewrite IH. apply andb_assoc.
Qed.

Lemma allChars_weaken (p q : ascii -> bool) s :
  (forall c, p c = true -> q c = true) ->
  allChars p s = true -> allChars q s = true.
Proof.
  intros Hpq. induction s as [|c s IH]; simpl; [reflexivity|].
  intros [Hc Hs]%andb_prop. rewrite (Hpq c Hc), (IH Hs). reflexivity.
Qed.

Lemma isDigit_pretty_N_char (d : N) : JS.isDigit (pretty_N_char d) = true.
Proof.
  unfold pretty_N_char. repeat case_match; reflexivity.
Qed.

Lemma digitValue_pretty_N_char (d : N) :
  (d < 10)%N -> JS.digitValue (pretty_N_char d) = Z.of_N d.
Proof.
  intros Hd.
  assert (d = 0 \/ d = 1 \/ d = 2 \/ d = 3 \/ d = 4 \/ d = 5 \/ d = 6 \/
          d = 7 \/ d = 8 \/ d = 9)%N as H by lia.
  repeat (destruct H as [-> | H]; [reflexivity|]). subst. reflexivity.
Qed.

(** The digits that [pretty_N_go x] puts in front of [s] are digits, and
    read back as [x]. *)
Lemma pretty_N_go_digits (x : N) (s : string) :
  exists d,
    pretty_N_go x s = d +:+ s /\
    allChars JS.isDigit d = true /\
    (forall acc t, JS.digitsValue acc (d +:+ t) =
                   JS.digitsValue
                     (acc * 10 ^ Z.of_nat (String.length d) + Z.of_N x) t) /\
    ((0 < x)%N -> d <> EmptyString).
Proof.
  revert s. induction (N.lt_wf_0 x) as [x _ IH]. intros s.
  destruct (N.eq_0_gt_0_cases x) as [-> | Hx].
  - exists EmptyString. rewrite pretty_N_go_0. repeat split.
    + intros acc t. simpl. f_equal. lia.
    + lia.
  - rewrite pretty_N_go_step by assumption.
    destruct (IH (x `div` 10)%N (N.div_lt x 10 Hx eq_refl)
                (String (pretty_N_char (x `mod` 10)) s))
      as (d & Hd & Hall & Hval & _).
    exists (d +:+ String (pretty_N_char (x `mod` 10)) EmptyString).
    repeat split.
    + rewrite Hd, append_assoc. reflexivity.
    + rewrite allChars_app, Hall. simpl.
      rewrite isDigit_pretty_N_char. reflexivity.
    + intros acc t. rewrite append_assoc, Hval.
      change (String ?c EmptyString +:+ t) with (String c t).
      cbn [JS.digitsValue].
      rewrite digitValue_pretty_N_char by (apply N.mod_lt; lia).
      f_equal. rewrite length_append. cbn [String.length].
      rewrite Nat2Z.inj_add, Z.pow_add_r by lia.
      pose proof (N.div_mod x 10 ltac:(lia)) as Hdm.
      change (10 ^ Z.of_nat 1) with 10. lia.
    + intros _. destruct d; discriminate.
Qed.

Lemma pretty_N_numeral (x : N) :
  numeral (pretty x) /\ JS.digitsValue 0 (pretty x) = Z.of_N x.
Proof.
  unfold pretty, pretty_N. case_decide as Hx.
  - subst. split; [split; [reflexivity | discriminate] | reflexivity].
  - destruct (pretty_N_go_digits x EmptyString) as (d & Hd & Hall & Hval & Hne).
    rewrite Hd. rewrite append_nil_r in *.
    split; [split; [assumption | apply Hne; lia]|].
    specialize (Hval 0 EmptyString). rewrite append_nil_r in Hval.
    rewrite Hval. reflexivity.
Qed.

(** [pretty z] is an optional minus sign and the numeral of [|z|]. *)
Lemma pretty_Z_shape (z : Z) :
  exists d, numeral d /\ JS.digitsValue 0 d = Z.abs z /\
            pretty z = (if z <? 0 then "-" else "") +:+ d.
Proof.
  destruct z as [|p|p].
  - exists "0". repeat split. discriminate.
  - exists (pretty (N.pos p)).
    destruct (pretty_N_numeral (N.pos p)) as [Hn Hv].
    repeat split; try apply Hn. rewrite Hv. reflexivity.
  - exists (pretty (N.pos p)).
    destruct (pretty_N_numeral (N.pos p)) as [Hn Hv].
    repeat split; try apply Hn. rewrite Hv. reflexivity.
Qed.

End Decimal.

(** ** [Number] on a printed integer *)

Section NumberOfPretty.

(** What sets a digit apart from the other characters of the grammar. *)
Lemma isDigit_facts (c : ascii) :
  JS.isDigit c = true ->
  Ascii.is_space c = false /\
  forall k : ascii,
    In k ["+"; "-"; ","; "."; "I"; "e"; "E"; "x"; "X"; "o"; "O"; "b"; "B"]%char ->
    Ascii.eqb c k = false.
Proof.
  destruct c as [[] [] [] [] [] [] [] []]; intros H; try discriminate H;
    (split; [reflexivity|]);
    intros k Hk; simpl in Hk;
    repeat (destruct Hk as [<- | Hk]; [reflexivity|]); destruct Hk.
Qed.

Lemma digit_eqb (c k : ascii) :
  JS.isDigit c = true ->
  In k ["+"; "-"; ","; "."; "I"; "e"; "E"; "x"; "X"; "o"; "O"; "b"; "B"]%char ->
  Ascii.eqb c k = false.
Proof. intros Hc. apply (isDigit_facts c Hc). Qed.

Ltac digit_eqb H :=
  rewrite ?(digit_eqb _ _ H) by (simpl; tauto).

Lemma spanDigits_all (d : string) :
  allChars JS.isDigit d = true -> JS.spanDigits d = (d, EmptyString).
Proof.
  induction d as [|c d IH]; [reflexivity|]. simpl.
  intros [Hc Hd]%andb_prop. rewrite Hc, (IH Hd). reflexivity.
Qed.

Lemma trimRight_id (s : string) :
  allChars (fun c => negb (Ascii.is_space c)) s = true ->
  JS.trimRight s = s.
Proof.
  induction s as [|c s IH]; [reflexivity|]. simpl.
  intros [Hc Hs]%andb_prop. rewrite (IH Hs).
  destruct s; [|reflexivity].
  apply negb_true_iff in Hc. rewrite Hc. reflexivity.
Qed.

Lemma trim_id (s : string) :
  allChars (fun c => negb (Ascii.is_space c)) s = true -> JS.trim s = s.
Proof.
  intros Hs. unfold JS.trim.
  assert (JS.trimLeft s = s) as ->.
  { destruct s as [|c s]; [reflexivity|]. simpl in *.
    apply andb_prop in Hs as [Hc _]. apply negb_true_iff in Hc.
    rewrite Hc. reflexivity. }
  apply trimRight_id, Hs.
Qed.

Lemma Qred_inject_Z (z : Z) : Qred (inject_Z z) = inject_Z z.
Proof. apply Qcanon.Qred_identity. simpl. apply Z.gcd_1_r. Qed.

Lemma unsignedDecimal_numeral (d : string) :
  numeral d ->
  JS.unsignedDecimal d = Some (inject_Z (JS.digitsValue 0 d)).
Proof.
  intros [Hall Hne]. unfold JS.unsignedDecimal.
  rewrite (spanDigits_all d Hall). cbn [JS.fractionPart].
  destruct d as [|c d]; [congruence|].
  cbn [JS.exponentPart String.length]. f_equal.
  cbn [JS.digitsValue].
  rewrite <- (Qred_inject_Z (JS.digitsValue _ d)) at 2.
  apply Qred_complete. simpl. ring.
Qed.

Lemma signedDecimal_numeral (d : string) :
  numeral d ->
  JS.signedDecimal d = JS.Finite (inject_Z (JS.digitsValue 0 d)) /\
  JS.signedDecimal ("-" +:+ d) =
  JS.Finite (inject_Z (- JS.digitsValue 0 d)).
Proof.
  intros Hn. pose proof (unsignedDecimal_numeral d Hn) as Hu.
  destruct Hn as [Hall Hne]. destruct d as [|c d]; [congruence|].
  pose proof Hall as Hall'. simpl in Hall'.
  apply andb_prop in Hall' as [Hc _].
  assert (HI : String.eqb (String c d) "Infinity" = false).
  { simpl. digit_eqb Hc. reflexivity. }
  split.
  - unfold JS.signedDecimal, JS.takeSign. digit_eqb Hc.
    rewrite HI, Hu. reflexivity.
  - unfold JS.signedDecimal.
    change (JS.takeSign ("-" +:+ String c d)) with (true, String c d).
    cbv iota. rewrite HI, Hu. f_equal.
    rewrite <- (Qred_inject_Z (- _)). apply Qred_complete.
    rewrite inject_Z_opp. reflexivity.
Qed.

Lemma digit_not_space (d : string) :
  allChars JS.isDigit d = true ->
  allChars (fun c => negb (Ascii.is_space c)) d = true.
Proof.
  apply allChars_weaken. intros c Hc.
  destruct (isDigit_facts c Hc) as [-> _]. reflexivity.
Qed.

Lemma radixPrefix_numeral (d : string) :
  allChars JS.isDigit d = true ->
  JS.radixPrefix d = None /\ JS.radixPrefix ("-" +:+ d) = None.
Proof.
  intros Hall. split.
  - destruct d as [|c0 [|c1 d]]; try reflexivity. simpl in *.
    apply andb_prop in Hall as [_ [Hc1 _]%andb_prop].
    digit_eqb Hc1. simpl. destruct (Ascii.eqb c0 "0"); reflexivity.
  - destruct d as [|c d]; reflexivity.
Qed.

(** Reading a printed integer gives the integer back. *)
Lemma Number_pretty (z : Z) : JS.Number (pretty z) = JS.Finite (inject_Z z).
Proof.
  destruct (pretty_Z_shape z) as (d & Hn & Hv & Hp).
  pose proof (signedDecimal_numeral d Hn) as [Hpos Hneg].
  destruct Hn as [Hall Hne].
  pose proof (radixPrefix_numeral d Hall) as [Hr Hr'].
  pose proof (digit_not_space d Hall) as Hsp.
  unfold JS.Number. rewrite Hp.
  destruct (Z.ltb_spec z 0).
  - rewrite trim_id by (rewrite allChars_app, Hsp; reflexivity).
    change ("-" +:+ d) with (String "-" d) in *. cbv iota.
    rewrite Hr', Hneg, Hv. do 2 f_equal. lia.
  - change ("" +:+ d) with d.
    rewrite trim_id by assumption.
    destruct d as [|c d]; [congruence|].
    rewrite Hr, Hpos, Hv. do 2 f_equal. lia.
Qed.

(** A printed integer has no comma. *)
Lemma pretty_no_comma (z : Z) :
  allChars (fun c => negb (Ascii.eqb c ",")) (pretty z) = true.
Proof.
  destruct (pretty_Z_shape z) as (d & [Hall _] & _ & ->).
  rewrite allChars_app.
  assert (allChars (fun c => negb (Ascii.eqb c ",")) d = true) as ->.
  { revert Hall. apply allChars_weaken. intros c Hc.
    digit_eqb Hc. reflexivity. }
  destruct (z <? 0); reflexivity.
Qed.

Lemma numberToString_Z (z : Z) :
  JS.numberToString (JS.Finite (inject_Z z)) = pretty z.
Proof. unfold JS.numberToString. rewrite Qred_inject_Z. reflexivity. Qed.

End NumberOfPretty.

(** ** The memento round trip *)

Section Memento.

Lemma split_plain (sep : ascii) (a : string) :
  allChars (fun c => negb (Ascii.eqb c sep)) a = true ->
  JS.split sep a = [a].
Proof.
  induction a as [|c a IH]; [reflexivity|]. simpl.
  intros [Hc Ha]%andb_prop. apply negb_true_iff in Hc.
  rewrite Hc, (IH Ha). reflexivity.
Qed.

Lemma split_field (sep : ascii) (a b : string) :
  allChars (fun c => negb (Ascii.eqb c sep)) a = true ->
  JS.split sep (a +:+ String sep b) = a :: JS.split sep b.
Proof.
  induction a as [|c a IH]; intros Ha.
  - change ("" +:+ String sep b) with (String sep b). simpl.
    rewrite Ascii.eqb_refl. reflexivity.
  - rewrite append_cons. simpl in *.
    apply andb_prop in Ha as [Hc Ha]. apply negb_true_iff in Hc.
    rewrite Hc, (IH Ha). reflexivity.
Qed.

(** The memento of a cache with integer fields. *)
Lemma toMomento_integers (i j numCoins : Z) :
  Geocache.toMomento
    (Geocache.mk (JS.ofZ i) (JS.ofZ j) (JS.ofZ numCoins)) =
  pretty i +:+ "," +:+ pretty j +:+ "," +:+ pretty numCoins.
Proof.
  unfold Geocache.toMomento, JS.ofZ, JS.toString. cbn [Geocache.i Geocache.j
    Geocache.numCoins]. rewrite !numberToString_Z. reflexivity.
Qed.

Lemma fromMomento_integers (g : Geocache.t) (i j numCoins : Z) :
  Geocache.fromMomento g
    (pretty i +:+ "," +:+ pretty j +:+ "," +:+ pretty numCoins) =
  Geocache.mk (JS.ofZ i) (JS.ofZ j) (JS.ofZ numCoins).
Proof.
  unfold Geocache.fromMomento.
  change (pretty i +:+ "," +:+ pretty j +:+ "," +:+ pretty numCoins)
    with (pretty i +:+ String "," (pretty j +:+ String "," (pretty numCoins))).
  rewrite (split_field "," (pretty i)) by apply pretty_no_comma.
  rewrite (split_field "," (pretty j)) by apply pretty_no_comma.
  rewrite (split_plain "," (pretty numCoins)) by apply pretty_no_comma.
  cbn [map]. rewrite !Number_pretty. reflexivity.
Qed.

End Memento.

(** C2. For integers [i], [j] and [numCoins >= 0], the memento of a
    Geocache with these fields, read by [fromMomento] into any other
    Geocache, gives a Geocache with the same [i], [j] and [numCoins]. *)
Theorem Geocache_roundtrip (i j numCoins : Z) (fresh : Geocache.t) :
  0 <= numCoins ->
  let g := Geocache.mk (JS.ofZ i) (JS.ofZ j) (JS.ofZ numCoins) in
  let g' := Geocache.fromMomento fresh (Geocache.toMomento g) in
  Geocache.i g' = Geocache.i g /\
  Geocache.j g' = Geocache.j g /\
  Geocache.numCoins g' = Geocache.numCoins g.
Proof.
  intros _ g g'. subst g g'.
  rewrite toMomento_integers, fromMomento_integers. repeat split.
Qed.

Lemma Geocache_roundtrip_witness :
  Geocache.numCoins
    (Geocache.fromMomento
       (Geocache.mk (JS.ofZ 0) (JS.ofZ 0) (JS.ofZ 0))
       (Geocache.toMomento
          (Geocache.mk (JS.ofZ 5) (JS.ofZ (-5)) (JS.ofZ 2)))) =
  JS.ofZ 2.
Proof.
  apply (Geocache_roundtrip 5 (-5) 2 (Geocache.mk (JS.ofZ 0) (JS.ofZ 0) (JS.ofZ 0))).
  lia.
Defined.

(** ** The flyweight registry of the grid index *)

Section Flyweight.

Implicit Types (b : Board.t) (p : LatLng.t) (r : nat) (c : Cell.t).

(** The registry key determines the cell coordinates. *)
Lemma cellKey_inj (i j i' j' : Z) :
  Board.cellKey i j = Board.cellKey i' j' -> i = i' /\ j = j'.
Proof.
  unfold Board.cellKey. intros H.
  apply (f_equal (JS.split ",")) in H.
  change ("," +:+ ?s) with (String "," s) in H.
  rewrite !split_field, !split_plain in H by apply pretty_no_comma.
  injection H as Hi Hj.
  split; eapply (inj pretty); eassumption.
Qed.

Lemma new_consistent (w : Q) (radius : Z) :
  Board.consistent (Board.new w radius).
Proof.
  split.
  - intros key r H. cbn in H. rewrite lookup_empty in H. discriminate.
  - intros r c H. cbn in H. destruct r; discriminate.
Qed.

Lemma getCellForPoint_consistent b p :
  Board.consistent b -> Board.consistent (snd (Board.getCellForPoint b p)).
Proof.
  intros [Hk Hc]. unfold Board.getCellForPoint.
  set (c := Board.cellOf (Board.tileWidth b) p).
  set (key := Board.cellKey (Cell.i c) (Cell.j c)).
  destruct (Board.knownCells b !! key) as [r|] eqn:Hkey; [split; assumption|].
  cbn [snd]. split; cbn [Board.cells Board.knownCells].
  - intros key' r Hl. destruct (decide (key = key')) as [<- | Hne].
    + rewrite lookup_insert_eq in Hl. injection Hl as <-.
      exists c. split; [|reflexivity].
      rewrite lookup_app_r, Nat.sub_diag by lia. reflexivity.
    + rewrite lookup_insert_ne in Hl by assumption.
      destruct (Hk key' r Hl) as (c' & Hc' & ->).
      exists c'. split; [|reflexivity].
      apply lookup_app_l_Some. assumption.
  - intros r c' Hl. apply lookup_app_Some in Hl as [Hl | [Hge Hl]].
    + assert (key <> Board.cellKey (Cell.i c') (Cell.j c')) as Hne.
      { intros Heq. rewrite Heq, (Hc r c' Hl) in Hkey. discriminate. }
      rewrite lookup_insert_ne by assumption. apply Hc, Hl.
    + destruct (r - length (Board.cells b))%nat as [|k] eqn:Hk'; [|destruct k; discriminate].
      injection Hl as <-. fold key.
      rewrite lookup_insert_eq. f_equal. lia.
Qed.

Lemma lookups_consistent b (points : list LatLng.t) :
  Board.consistent b -> Board.consistent (Board.lookups b points).
Proof.
  revert b. induction points as [|p points IH]; intros b Hb; [exact Hb|].
  apply IH, getCellForPoint_consistent, Hb.
Qed.

(** A consistent board holds at most one record per coordinate pair. *)
Lemma consistent_unique b r r' c c' :
  Board.consistent b ->
  Board.cells b !! r = Some c -> Board.cells b !! r' = Some c' ->
  Cell.i c = Cell.i c' -> Cell.j c = Cell.j c' -> r = r'.
Proof.
  intros [_ Hc] H1 H2 Hi Hj.
  apply Hc in H1. apply Hc in H2. rewrite Hi, Hj in H1. congruence.
Qed.

(** A lookup leaves the width alone and keeps every registered key. *)
Lemma getCellForPoint_grows b p :
  let b' := snd (Board.getCellForPoint b p) in
  Board.tileWidth b' = Board.tileWidth b /\
  forall (key : string) r,
    Board.knownCells b !! key = Some r ->
    Board.knownCells b' !! key = Some r.
Proof.
  unfold Board.getCellForPoint.
  destruct (Board.knownCells b !! _) as [r0|] eqn:Hkey;
    cbn [snd Board.tileWidth Board.knownCells]; [tauto|].
  split; [reflexivity|]. intros key r Hl.
  rewrite lookup_insert_ne; [assumption|]. congruence.
Qed.

Lemma lookups_grows b (points : list LatLng.t) :
  Board.tileWidth (Board.lookups b points) = Board.tileWidth b /\
  forall (key : string) r,
    Board.knownCells b !! key = Some r ->
    Board.knownCells (Board.lookups b points) !! key = Some r.
Proof.
  revert b. induction points as [|p points IH]; intros b; [tauto|].
  cbn [Board.lookups foldl].
  destruct (IH (snd (Board.getCellForPoint b p))) as [Hw Hk].
  destruct (getCellForPoint_grows b p) as [Hw' Hk'].
  unfold Board.lookups in *. split; [congruence|].
  intros key r Hl. apply Hk, Hk', Hl.
Qed.

(** After a lookup the point's key is registered under the returned
    identity. *)
Lemma getCellForPoint_registered b p :
  let c := Board.cellOf (Board.tileWidth b) p in
  Board.knownCells (snd (Board.getCellForPoint b p))
    !! Board.cellKey (Cell.i c) (Cell.j c) =
  Some (fst (Board.getCellForPoint b p)).
Proof.
  unfold Board.getCellForPoint.
  destruct (Board.knownCells b !! _) as [r0|] eqn:Hkey; cbn; [assumption|].
  apply lookup_insert_eq.
Qed.

Lemma lookups_tileWidth_new (w : Q) (radius : Z) (points : list LatLng.t) :
  Board.tileWidth (Board.lookups (Board.new w radius) points) = w.
Proof. apply lookups_grows. Qed.

End Flyweight.

(** C3. On a board built by [new Board] and any lookups: a lookup of a
    point and a later lookup of the same point (or of any point with the
    same cell coordinates), whatever was looked up in between, return the
    same Cell record, which holds the point's cell coordinates; the later
    lookup allocates nothing; and among all records ever allocated no two
    have the same [(i, j)]. *)
Theorem getCellForPoint_flyweight
  (w : Q) (radius : Z) (before between : list LatLng.t) (p : LatLng.t) :
  let b := Board.lookups (Board.new w radius) before in
  let r1 := fst (Board.getCellForPoint b p) in
  let b1 := snd (Board.getCellForPoint b p) in
  let b2 := Board.lookups b1 between in
  let r2 := fst (Board.getCellForPoint b2 p) in
  let b3 := snd (Board.getCellForPoint b2 p) in
  r1 = r2 /\
  Board.cells b3 !! r1 = Some (Board.cellOf w p) /\
  b3 = b2 /\
  (forall q : LatLng.t,
     Board.cellOf w q = Board.cellOf w p ->
     Board.getCellForPoint b2 q = (r1, b2)) /\
  forall (ra rb : nat) (ca cb : Cell.t),
    Board.cells b3 !! ra = Some ca -> Board.cells b3 !! rb = Some cb ->
    Cell.i ca = Cell.i cb -> Cell.j ca = Cell.j cb -> ra = rb.
Proof.
  intros b r1 b1 b2 r2 b3.
  assert (Hb : Board.consistent b) by apply lookups_consistent, new_consistent.
  assert (Hb1 : Board.consistent b1) by apply getCellForPoint_consistent, Hb.
  assert (Hb2 : Board.consistent b2) by apply lookups_consistent, Hb1.
  assert (Hb3 : Board.consistent b3) by apply getCellForPoint_consistent, Hb2.
  assert (Hw : Board.tileWidth b = w) by apply lookups_tileWidth_new.
  assert (Hw1 : Board.tileWidth b1 = w).
  { rewrite <- Hw. apply getCellForPoint_grows. }
  assert (Hw2 : Board.tileWidth b2 = w).
  { rewrite <- Hw1. apply lookups_grows. }
  pose proof (getCellForPoint_registered b p) as Hreg.
  cbv zeta in Hreg. fold r1 b1 in Hreg. rewrite Hw in Hreg.
  assert (Hreg2 : Board.knownCells b2
            !! Board.cellKey (Cell.i (Board.cellOf w p))
                             (Cell.j (Board.cellOf w p)) = Some r1).
  { apply lookups_grows, Hreg. }
  assert (Hhit : forall q : LatLng.t,
            Board.cellOf w q = Board.cellOf w p ->
            Board.getCellForPoint b2 q = (r1, b2)).
  { intros q Hq. unfold Board.getCellForPoint. rewrite Hw2, Hq, Hreg2.
    reflexivity. }
  subst r2 b3. rewrite (Hhit p eq_refl) in *. cbn [fst snd].
  split; [reflexivity|]. split.
  - destruct Hb2 as [Hk _]. destruct (Hk _ _ Hreg2) as (c & Hc & Hkey).
    apply cellKey_inj in Hkey as [Hi Hj]. rewrite Hc. f_equal.
    destruct c, (Board.cellOf w p). simpl in *. congruence.
  - split; [reflexivity|]. split; [exact Hhit|].
    intros ra rb ca cb. apply consistent_unique. assumption.
Qed.

(** ** The lifecycle pass *)

Section Pass.

Context (M : Math.lib) (luck : string -> Q).

Implicit Types (mementos : gmap string string) (cell : Cell.t)
  (cache : Cache.t) (caches : list Cache.t) (player : LatLng.t) (k n : nat).

Lemma cacheKey_inj cell cell' : cacheKey cell = cacheKey cell' -> cell = cell'.
Proof.
  intros H. apply (cellKey_inj (Cell.i cell) (Cell.j cell)) in H as [Hi Hj].
  destruct cell, cell'. simpl in *. congruence.
Qed.

Lemma mementoOf_shape cell n :
  mementoOf cell n =
  pretty (Cell.i cell) +:+ "," +:+ pretty (Cell.j cell) +:+ "," +:+
  pretty (Z.of_nat n).
Proof. apply toMomento_integers. Qed.

Lemma mementoOf_truthy cell n : truthy (mementoOf cell n) = true.
Proof.
  rewrite mementoOf_shape.
  destruct (pretty_Z_shape (Cell.i cell)) as (d & [_ Hne] & _ & ->).
  destruct (Cell.i cell <? 0); [reflexivity|].
  destruct d; [congruence | reflexivity].
Qed.

(** *** Saving *)

Lemma saveMemento_lookup mementos cache :
  saveMemento mementos cache !! cacheKey (Cache.cell cache) =
  Some (mementoOf (Cache.cell cache) (length (Cache.coins cache))).
Proof. unfold saveMemento. apply lookup_insert_eq. Qed.

Lemma saveMemento_other mementos cache cell :
  Cache.cell cache <> cell ->
  saveMemento mementos cache !! cacheKey cell = mementos !! cacheKey cell.
Proof.
  intros Hne. unfold saveMemento. apply lookup_insert_ne.
  intros Heq. apply Hne, cacheKey_inj, Heq.
Qed.

Lemma saveMementos_app caches caches' mementos :
  saveMementos (caches ++ caches') mementos =
  saveMementos caches' (saveMementos caches mementos).
Proof. apply foldl_app. Qed.

(** Cells without a live cache keep their memento. *)
Lemma saveMementos_noCacheIn caches mementos cell :
  noCacheIn caches cell ->
  saveMementos caches mementos !! cacheKey cell = mementos !! cacheKey cell.
Proof.
  unfold noCacheIn, saveMementos. revert mementos.
  induction caches as [|c caches IH]; intros mementos Hno; [reflexivity|].
  apply Forall_cons in Hno as [Hc Hno]. cbn [foldl].
  rewrite (IH _ Hno). apply saveMemento_other, Hc.
Qed.

(** The memento of a cell is the one of the last live cache in it. *)
Lemma saveMementos_lastInCell caches mementos cache :
  lastInCell caches cache ->
  saveMementos caches mementos !! cacheKey (Cache.cell cache) =
  Some (mementoOf (Cache.cell cache) (length (Cache.coins cache))).
Proof.
  intros (front & back & -> & Hback).
  rewrite saveMementos_app.
  change (saveMementos (cache :: back) ?m)
    with (saveMementos back (saveMemento m cache)).
  rewrite (saveMementos_noCacheIn back _ _ Hback).
  apply saveMemento_lookup.
Qed.

(** *** Restoring *)

Lemma iterations_ofZ (z : Z) :
  z <= JS.maxArrayLength -> JS.iterations (JS.ofZ z) = Some (Z.to_nat z).
Proof.
  intros Hz. unfold JS.iterations, JS.ofZ. rewrite Qceiling_Z.
  destruct (Z.leb_spec z JS.maxArrayLength); [reflexivity | lia].
Qed.

Lemma restored_count mementos cell cell' cacheId n :
  mementos !! cacheKey cell = Some (mementoOf cell' n) ->
  restoredOrGenerated luck mementos cell cacheId = JS.ofZ (Z.of_nat n).
Proof.
  intros Hm. unfold restoredOrGenerated. rewrite Hm, mementoOf_truthy.
  rewrite mementoOf_shape, fromMomento_integers. reflexivity.
Qed.

Lemma generated_count mementos cell cacheId :
  mementos !! cacheKey cell = None ->
  restoredOrGenerated luck mementos cell cacheId =
  JS.ofZ (generateNumberOfCoins luck cacheId).
Proof. intros Hm. unfold restoredOrGenerated. rewrite Hm. reflexivity. Qed.

Lemma slotCell_Some player k cell :
  slotCell M luck player k = Some cell ->
  isCacheVisible M
    (placeCache M luck player CACHE_VISIBILITY_RADIUS (cacheIdOf k)) player
  = true /\
  Board.cellOf tileWidth
    (placeCache M luck player CACHE_VISIBILITY_RADIUS (cacheIdOf k)) = cell.
Proof.
  unfold slotCell. destruct (isCacheVisible _ _ _); [|discriminate].
  intros [= <-]. split; reflexivity.
Qed.

(** A visible candidate whose cell has a saved memento is restored with
    the saved count. *)
Lemma materialize_restored mementos player k cell cell' n :
  slotCell M luck player k = Some cell ->
  mementos !! cacheKey cell = Some (mementoOf cell' n) ->
  Z.of_nat n <= JS.maxArrayLength ->
  materialize M luck mementos player k =
  Some (Some (cacheWith cell (cacheIdOf k) n)).
Proof.
  intros [Hv Hc]%slotCell_Some Hm Hn. unfold materialize.
  rewrite Hv, Hc, (restored_count _ _ _ _ _ Hm), iterations_ofZ by assumption.
  rewrite Nat2Z.id. reflexivity.
Qed.

(** A visible candidate whose cell has no memento is generated. *)
Lemma materialize_generated mementos player k cell :
  slotCell M luck player k = Some cell ->
  mementos !! cacheKey cell = None ->
  generateNumberOfCoins luck (cacheIdOf k) <= JS.maxArrayLength ->
  materialize M luck mementos player k =
  Some (Some (cacheWith cell (cacheIdOf k)
                (Z.to_nat (generateNumberOfCoins luck (cacheIdOf k))))).
Proof.
  intros [Hv Hc]%slotCell_Some Hm Hn. unfold materialize.
  rewrite Hv, Hc, (generated_count _ _ _ Hm), iterations_ofZ by assumption.
  reflexivity.
Qed.

Lemma materialize_hidden mementos player k :
  slotCell M luck player k = None ->
  materialize M luck mementos player k = Some None.
Proof.
  unfold slotCell, materialize.
  destruct (isCacheVisible _ _ _); [discriminate | reflexivity].
Qed.

(** *** The loop *)

Lemma regenerate_length mementos player (slots : list nat) caches caches' :
  regenerate M luck mementos player slots caches = Some caches' ->
  (length caches' <= length caches + length slots)%nat.
Proof.
  revert caches. induction slots as [|i slots IH]; intros caches; simpl.
  - intros [= <-]. lia.
  - destruct (materialize M luck mementos player i) as [[c|]|]; [| |discriminate];
      intros H%IH; rewrite ?length_app in H; simpl in H; lia.
Qed.

Lemma updateCacheLocations_Some s s' :
  updateCacheLocations M luck s = Some s' ->
  geocacheMementos s' =
    saveMementos (cacheLocations s) (geocacheMementos s) /\
  regenerate M luck (geocacheMementos s') (playerLocation s) (seq 0 5) [] =
    Some (cacheLocations s') /\
  playerCoins s' = playerCoins s /\ playerLocation s' = playerLocation s.
Proof.
  unfold updateCacheLocations.
  destruct (regenerate _ _ _ _ _ _) as [caches|] eqn:Hr; [|discriminate].
  intros [= <-].
  cbn [geocacheMementos cacheLocations playerCoins playerLocation].
  rewrite Hr. repeat split.
Qed.

End Pass.

(** ** The pass returns, and what it leaves behind *)

Section PassReturns.

Context (M : Math.lib) (luck : string -> Q).
Hypothesis luck_unit : unitLuck luck.

Implicit Types (mementos : gmap string string) (player : LatLng.t).

Lemma length_makeCoins (cell : Cell.t) (cacheId : string) (n : nat) :
  length (makeCoins cell cacheId n) = n.
Proof. unfold makeCoins. rewrite length_map, length_seq. reflexivity. Qed.

Lemma generated_fits (cacheId : string) :
  0 <= generateNumberOfCoins luck cacheId <= JS.maxArrayLength.
Proof.
  destruct (luck_unit (cacheId +:+ ",coins")) as [H0 H1].
  pose proof (generateNumberOfCoins_range luck cacheId H0 H1).
  unfold JS.maxArrayLength. lia.
Qed.

(** With sound mementos every round of the loop comes to an end, and the
    cache it pushes fits an array. *)
Lemma materialize_returns mementos player (k : nat) :
  soundMementos mementos ->
  exists r,
    materialize M luck mementos player k = Some r /\
    forall c, r = Some c ->
      Z.of_nat (length (Cache.coins c)) <= JS.maxArrayLength.
Proof.
  intros Hsound.
  destruct (slotCell M luck player k) as [cell|] eqn:Hslot.
  - destruct (mementos !! cacheKey cell) as [momento|] eqn:Hm.
    + destruct (Hsound _ _ Hm) as (cell' & n & Hn & ->).
      eexists. split.
      { eapply materialize_restored; [exact Hslot | exact Hm | exact Hn]. }
      intros c [= <-]. simpl. rewrite length_makeCoins. exact Hn.
    + pose proof (generated_fits (cacheIdOf k)) as Hg.
      eexists. split.
      { apply (materialize_generated M luck mementos player k cell Hslot Hm).
        lia. }
      intros c [= <-]. simpl. rewrite length_makeCoins. lia.
  - eexists. split; [apply materialize_hidden; assumption|]. discriminate.
Qed.

Lemma regenerate_returns mementos player (slots : list nat)
  (caches : list Cache.t) :
  soundMementos mementos ->
  Forall (fun c => Z.of_nat (length (Cache.coins c)) <= JS.maxArrayLength)
         caches ->
  exists caches',
    regenerate M luck mementos player slots caches = Some caches' /\
    Forall (fun c => Z.of_nat (length (Cache.coins c)) <= JS.maxArrayLength)
           caches'.
Proof.
  intros Hsound. revert caches.
  induction slots as [|i slots IH]; intros caches Hfit; cbn [regenerate].
  - eauto.
  - destruct (materialize_returns mementos player i Hsound) as (r & -> & Hr).
    destruct r as [c|]; [|apply IH, Hfit].
    apply IH. apply Forall_app. split; [exact Hfit|].
    apply Forall_singleton, Hr. reflexivity.
Qed.

Lemma saveMementos_sound (caches : list Cache.t) mementos :
  soundMementos mementos ->
  Forall (fun c => Z.of_nat (length (Cache.coins c)) <= JS.maxArrayLength)
         caches ->
  soundMementos (saveMementos caches mementos).
Proof.
  revert mementos. induction caches as [|c caches IH]; intros mementos Hs Hfit;
    [exact Hs|].
  apply Forall_cons in Hfit as [Hc Hfit].
  change (saveMementos (c :: caches) mementos)
    with (saveMementos caches (saveMemento mementos c)).
  apply IH; [|exact Hfit].
  intros key momento. unfold saveMemento.
  destruct (decide (cacheKey (Cache.cell c) = key)) as [<- | Hne].
  - rewrite lookup_insert_eq. intros [= <-]. eexists _, _.
    split; [exact Hc | reflexivity].
  - rewrite lookup_insert_ne by assumption. apply Hs.
Qed.

(** From a fitting state the pass returns, in a fitting state. *)
Lemma updateCacheLocations_returns (s : Game) :
  fitting s ->
  exists s', updateCacheLocations M luck s = Some s' /\ fitting s'.
Proof.
  intros [Hs Hfit]. unfold updateCacheLocations.
  pose proof (saveMementos_sound _ _ Hs Hfit) as Hs'.
  destruct (regenerate_returns
              (saveMementos (cacheLocations s) (geocacheMementos s))
              (playerLocation s) (seq 0 5) [] Hs' (Forall_nil_2 _))
    as (caches' & -> & Hfit').
  eexists. split; [reflexivity|]. split; assumption.
Qed.

End PassReturns.

Lemma initialGame_fitting : fitting initialGame.
Proof.
  split; [|apply Forall_nil_2].
  intros key momento H. cbn in H. rewrite lookup_empty in H. discriminate.
Qed.

(** C9. Whatever the [Math] functions, the value generator and the state
    the pass starts from (and so whatever cells the visibility test lets
    through), a pass that returns leaves at most 5 materialized caches;
    and from a fitting state, with a value generator that stays in
    [0, 1), the pass does return. *)
Theorem updateCacheLocations_at_most_5
  (M : Math.lib) (luck : string -> Q) (s : Game) :
  (forall s' : Game,
     updateCacheLocations M luck s = Some s' ->
     (length (cacheLocations s') <= 5)%nat) /\
  (unitLuck luck -> fitting s ->
   exists s' : Game,
     updateCacheLocations M luck s = Some s' /\
     (length (cacheLocations s') <= 5)%nat).
Proof.
  assert (Hle : forall s' : Game,
     updateCacheLocations M luck s = Some s' ->
     (length (cacheLocations s') <= 5)%nat).
  { intros s' (_ & Hr & _)%updateCacheLocations_Some.
    apply regenerate_length in Hr. simpl in Hr. exact Hr. }
  split; [exact Hle|].
  intros Hluck Hfit.
  destruct (updateCacheLocations_returns M luck Hluck s Hfit) as (s' & Hs' & _).
  exists s'. split; [exact Hs' | apply Hle, Hs'].
Qed.

Lemma updateCacheLocations_at_most_5_witness :
  exists s',
    updateCacheLocations polyMath demoLuck sharedCellGame = Some s' /\
    (length (cacheLocations s') <= 5)%nat.
Proof.
  eexists. split; [vm_compute; reflexivity|].
  apply (updateCacheLocations_at_most_5 polyMath demoLuck sharedCellGame).
  vm_compute. reflexivity.
Defined.

(** ** Eviction and restoration *)

Section Eviction.

Context (M : Math.lib) (luck : string -> Q).

Implicit Types (s : Game) (cell : Cell.t) (cache : Cache.t) (k n : nat).

(** The pass saves, for each live cell, the count of the last cache in
    that cell. *)
Lemma pass_saves_last s s' cache :
  updateCacheLocations M luck s = Some s' ->
  lastInCell (cacheLocations s) cache ->
  geocacheMementos s' !! cacheKey (Cache.cell cache) =
  Some (mementoOf (Cache.cell cache) (length (Cache.coins cache))).
Proof.
  intros (-> & _)%updateCacheLocations_Some Hlast.
  apply saveMementos_lastInCell, Hlast.
Qed.

(** A pass leaves the memento of a cell without live cache alone. *)
Lemma pass_keeps_memento s s' cell :
  updateCacheLocations M luck s = Some s' ->
  noCacheIn (cacheLocations s) cell ->
  geocacheMementos s' !! cacheKey cell = geocacheMementos s !! cacheKey cell.
Proof.
  intros (-> & _)%updateCacheLocations_Some Hno.
  apply saveMementos_noCacheIn, Hno.
Qed.

(** The handlers never touch the mementos or the cells. *)
Lemma handlers_keep_mementos (index : nat) s :
  geocacheMementos (fst (handleCollect index s)) = geocacheMementos s /\
  geocacheMementos (fst (handleDeposit index s)) = geocacheMementos s.
Proof.
  unfold handleCollect, handleDeposit.
  destruct (cacheLocations s !! index) as [c|];
    destruct (0 <? playerCoins s); try destruct (0 <? length _)%nat;
    split; reflexivity.
Qed.

(** What a round pushes is in the list the loop returns. *)
Lemma regenerate_elem (mementos : gmap string string) (player : LatLng.t)
  (slots : list nat) (caches caches' : list Cache.t) :
  regenerate M luck mementos player slots caches = Some caches' ->
  (forall c, c ∈ caches -> c ∈ caches') /\
  (forall k c, k ∈ slots ->
     materialize M luck mementos player k = Some (Some c) -> c ∈ caches').
Proof.
  revert caches. induction slots as [|i slots IH]; intros caches; cbn [regenerate].
  - intros [= <-]. split; [tauto|]. intros k c Hk. inversion Hk.
  - destruct (materialize M luck mementos player i) as [[ci|]|] eqn:Hi;
      [| |discriminate]; intros [Hin Hslots]%IH; split.
    + intros c Hc. apply Hin, elem_of_app. left. exact Hc.
    + intros k c [-> | Hk]%elem_of_cons Hm.
      * rewrite Hi in Hm. injection Hm as <-.
        apply Hin, elem_of_app. right. apply list_elem_of_singleton.
        reflexivity.
      * eapply Hslots; eassumption.
    + exact Hin.
    + intros k c [-> | Hk]%elem_of_cons Hm; [congruence|].
      eapply Hslots; eassumption.
Qed.

(** A cell whose memento holds the count [n] and which has no live cache
    comes back with [n] coins when round [k] of a pass resolves to it. *)
Lemma restored_from_memento s s' cell cell' n k :
  geocacheMementos s !! cacheKey cell = Some (mementoOf cell' n) ->
  noCacheIn (cacheLocations s) cell ->
  Z.of_nat n <= JS.maxArrayLength ->
  (k < 5)%nat ->
  slotCell M luck (playerLocation s) k = Some cell ->
  updateCacheLocations M luck s = Some s' ->
  cacheWith cell (cacheIdOf k) n ∈ cacheLocations s'.
Proof.
  intros Hm Hno Hn Hk Hslot Hpass.
  pose proof (pass_keeps_memento s s' cell Hpass Hno) as Hkeep.
  apply updateCacheLocations_Some in Hpass as (_ & Hr & _).
  apply regenerate_elem in Hr as [_ Hr]. apply (Hr k).
  - apply elem_of_seq. lia.
  - eapply materialize_restored; [exact Hslot | | exact Hn].
    rewrite Hkeep. exact Hm.
Qed.

(** A live cache that is the last one in its cell comes back in the same
    pass with its own count, whenever a round resolves to its cell. *)
Lemma last_in_cell_restored s s' cache k :
  lastInCell (cacheLocations s) cache ->
  Z.of_nat (length (Cache.coins cache)) <= JS.maxArrayLength ->
  (k < 5)%nat ->
  slotCell M luck (playerLocation s) k = Some (Cache.cell cache) ->
  updateCacheLocations M luck s = Some s' ->
  cacheWith (Cache.cell cache) (cacheIdOf k) (length (Cache.coins cache))
    ∈ cacheLocations s'.
Proof.
  intros Hlast Hn Hk Hslot Hpass.
  pose proof (pass_saves_last s s' cache Hpass Hlast) as Hsaved.
  apply updateCacheLocations_Some in Hpass as (_ & Hr & _).
  apply regenerate_elem in Hr as [_ Hr]. apply (Hr k).
  - apply elem_of_seq. lia.
  - eapply materialize_restored; [exact Hslot | exact Hsaved | exact Hn].
Qed.

(** Eviction, any number of passes elsewhere, and the return: a cache that
    is the last one in its cell when a pass evicts it is restored with its
    own count by the first later pass that resolves a round to its cell,
    provided no pass in between materialized that cell. *)
Lemma evicted_then_restored s s1 s2 s3 cache k :
  lastInCell (cacheLocations s) cache ->
  Z.of_nat (length (Cache.coins cache)) <= JS.maxArrayLength ->
  updateCacheLocations M luck s = Some s1 ->
  geocacheMementos s2 !! cacheKey (Cache.cell cache) =
    geocacheMementos s1 !! cacheKey (Cache.cell cache) ->
  noCacheIn (cacheLocations s2) (Cache.cell cache) ->
  (k < 5)%nat ->
  slotCell M luck (playerLocation s2) k = Some (Cache.cell cache) ->
  updateCacheLocations M luck s2 = Some s3 ->
  cacheWith (Cache.cell cache) (cacheIdOf k) (length (Cache.coins cache))
    ∈ cacheLocations s3.
Proof.
  intros Hlast Hn Hpass Hsame Hno Hk Hslot Hpass'.
  eapply restored_from_memento; try eassumption.
  rewrite Hsame. eapply pass_saves_last; eassumption.
Qed.

(** Two live caches in one cell: both come back with the count of the
    later one. *)
Lemma shared_cell_last_wins s s' cache cache' k :
  cache ∈ cacheLocations s ->
  lastInCell (cacheLocations s) cache' ->
  Cache.cell cache = Cache.cell cache' ->
  Z.of_nat (length (Cache.coins cache')) <= JS.maxArrayLength ->
  (k < 5)%nat ->
  slotCell M luck (playerLocation s) k = Some (Cache.cell cache) ->
  updateCacheLocations M luck s = Some s' ->
  cacheWith (Cache.cell cache) (cacheIdOf k) (length (Cache.coins cache'))
    ∈ cacheLocations s'.
Proof.
  intros _ Hlast Hcell Hn Hk Hslot Hpass. rewrite Hcell in *.
  eapply last_in_cell_restored; eassumption.
Qed.

End Eviction.

(** ** All candidates of a pass fall in the player's cell *)

Section Geometry.

Context (M : Math.lib) (luck : string -> Q).
Hypothesis luck_unit : unitLuck luck.

Implicit Types (player : LatLng.t) (k : nat) (cell : Cell.t).

Local Open Scope Q_scope.

(** The latitude offset: at most 0.005 m, in degrees. *)
Lemma offsetLat_small (d c : Q) :
  0 <= d -> d < 5 # 1000 -> -1 <= c -> c <= 1 ->
  - margin <= d * c / 111139 /\ d * c / 111139 <= margin.
Proof.
  intros H0 H1 H2 H3. unfold margin.
  assert (- d <= d * c) by nra.
  assert (d * c <= d) by nra.
  unfold Qdiv. change (/ 111139) with (1 # 111139).
  set (x := d * c) in *.
  split; lra.
Qed.

(** The longitude offset, where the cosine of the latitude is at least
    one half. *)
Lemma offsetLng_small (d s c0 : Q) :
  0 <= d -> d < 5 # 1000 -> -1 <= s -> s <= 1 -> 1 # 2 <= c0 ->
  - margin <= d * s / (111139 * c0) /\ d * s / (111139 * c0) <= margin.
Proof.
  intros H0 H1 H2 H3 H4. unfold margin.
  assert (Hpos : 0 < 111139 * c0) by lra.
  unfold Qdiv.
  pose proof (Qinv_lt_0_compat _ Hpos) as Ht.
  assert (Hinv : / (111139 * c0) * (111139 * c0) == 1).
  { rewrite Qmult_comm. apply Qmult_inv_r. lra. }
  set (t := / (111139 * c0)) in *.
  assert (Ht2 : t <= 2 # 111139) by nra.
  assert (- d <= d * s) by nra.
  assert (d * s <= d) by nra.
  set (x := d * s) in *.
  split; nra.
Qed.

Lemma placeCache_near player (cacheId : string) :
  boundedTrig M player ->
  let p := placeCache M luck player CACHE_VISIBILITY_RADIUS cacheId in
  (LatLng.lat player - margin <= LatLng.lat p /\
   LatLng.lat p <= LatLng.lat player + margin) /\
  (LatLng.lng player - margin <= LatLng.lng p /\
   LatLng.lng p <= LatLng.lng player + margin).
Proof.
  intros (Hcos & Hsin & Hlat) p. subst p. unfold placeCache.
  cbn [LatLng.lat LatLng.lng].
  destruct (luck_unit (cacheId +:+ "-distance")) as [Hd0 Hd1].
  set (d := CACHE_VISIBILITY_RADIUS * luck (cacheId +:+ "-distance")).
  set (angle := 2 * Math.PI M * luck (cacheId +:+ "-angle")).
  assert (Hd : 0 <= d /\ d < 5 # 1000).
  { subst d. unfold CACHE_VISIBILITY_RADIUS. split; nra. }
  destruct Hd as [Hd Hd'].
  destruct (Hcos angle) as [Hc1 Hc2]. destruct (Hsin angle) as [Hs1 Hs2].
  pose proof (offsetLat_small d _ Hd Hd' Hc1 Hc2) as [Ha Hb].
  pose proof (offsetLng_small d _ _ Hd Hd' Hs1 Hs2 Hlat) as [Ha' Hb'].
  split; split; lra.
Qed.

Lemma Qfloor_div_mono (x y : Q) :
  x <= y -> (Qfloor (x / tileWidth) <= Qfloor (y / tileWidth))%Z.
Proof.
  intros Hxy. apply Qfloor_resp_le. unfold Qdiv.
  apply Qmult_le_compat_r; [exact Hxy | discriminate].
Qed.

(** A coordinate within [margin] of an interior one has the same index. *)
Lemma index_near (x y : Q) :
  Qfloor ((x - margin) / tileWidth) = Qfloor ((x + margin) / tileWidth) ->
  x - margin <= y -> y <= x + margin ->
  Qfloor (y / tileWidth) = Qfloor (x / tileWidth).
Proof.
  intros Heq Hlo Hhi.
  pose proof (Qfloor_div_mono _ _ Hlo).
  pose proof (Qfloor_div_mono _ _ Hhi).
  assert (Hx1 : x - margin <= x) by (unfold margin; lra).
  assert (Hx2 : x <= x + margin) by (unfold margin; lra).
  pose proof (Qfloor_div_mono _ _ Hx1).
  pose proof (Qfloor_div_mono _ _ Hx2).
  lia.
Qed.

(** Every visible candidate of a pass is in the player's cell. *)
Lemma slotCell_player_cell player k cell :
  boundedTrig M player -> interior player ->
  slotCell M luck player k = Some cell ->
  cell = Board.cellOf tileWidth player.
Proof.
  intros Htrig [Hi Hj] [_ <-]%slotCell_Some.
  destruct (placeCache_near player (cacheIdOf k) Htrig) as [[H1 H2] [H3 H4]].
  unfold Board.cellOf. f_equal; apply index_near; assumption.
Qed.

End Geometry.

Section Levelling.

Context (M : Math.lib) (luck : string -> Q).
Hypothesis luck_unit : unitLuck luck.

Implicit Types (s : Game) (cache : Cache.t) (k : nat).

(** Whatever the loop returns was there before or was pushed by a round. *)
Lemma regenerate_from (mementos : gmap string string) (player : LatLng.t)
  (slots : list nat) (caches caches' : list Cache.t) (c : Cache.t) :
  regenerate M luck mementos player slots caches = Some caches' ->
  c ∈ caches' ->
  c ∈ caches \/
  exists k, k ∈ slots /\ materialize M luck mementos player k = Some (Some c).
Proof.
  revert caches. induction slots as [|i slots IH]; intros caches;
    cbn [regenerate].
  - intros [= <-] Hc. left. exact Hc.
  - destruct (materialize M luck mementos player i) as [[ci|]|] eqn:Hi;
      [| |discriminate]; intros Hr Hc;
      destruct (IH _ Hr Hc) as [Hin | (k & Hk & Hm)].
    + apply elem_of_app in Hin as [Hin | ->%list_elem_of_singleton].
      * left. exact Hin.
      * right. exists i. split; [apply elem_of_cons; tauto | exact Hi].
    + right. exists k. split; [apply elem_of_cons; tauto | exact Hm].
    + left. exact Hin.
    + right. exists k. split; [apply elem_of_cons; tauto | exact Hm].
Qed.

(** The cache a round pushes is in the cell the round resolves to. *)
Lemma materialize_cell (mementos : gmap string string) (player : LatLng.t)
  k (c : Cache.t) :
  materialize M luck mementos player k = Some (Some c) ->
  slotCell M luck player k = Some (Cache.cell c) /\ Cache.id c = cacheIdOf k.
Proof.
  unfold materialize, slotCell.
  destruct (isCacheVisible _ _ _); [|discriminate].
  destruct (JS.iterations _); [|discriminate].
  intros [= <-]. split; reflexivity.
Qed.

(** After a pass at an interior position every materialized cache is in
    the player's cell. *)
Lemma pass_in_player_cell s s' (c : Cache.t) :
  boundedTrig M (playerLocation s) -> interior (playerLocation s) ->
  updateCacheLocations M luck s = Some s' ->
  c ∈ cacheLocations s' ->
  Cache.cell c = Board.cellOf tileWidth (playerLocation s).
Proof.
  intros Htrig Hint (_ & Hr & _)%updateCacheLocations_Some Hc.
  destruct (regenerate_from _ _ _ _ _ _ Hr Hc) as [Hnil | (k & _ & Hm)].
  - inversion Hnil.
  - apply materialize_cell in Hm as [Hslot _].
    eapply slotCell_player_cell; eassumption.
Qed.

(** When the last cache in the player's cell holds [n] coins, a pass at an
    interior position gives every cache it materializes [n] coins,
    whatever the other caches of that cell held. *)
Lemma pass_levels_counts s s' cache (c : Cache.t) :
  boundedTrig M (playerLocation s) -> interior (playerLocation s) ->
  lastInCell (cacheLocations s) cache ->
  Cache.cell cache = Board.cellOf tileWidth (playerLocation s) ->
  (Z.of_nat (length (Cache.coins cache)) <= JS.maxArrayLength)%Z ->
  updateCacheLocations M luck s = Some s' ->
  c ∈ cacheLocations s' ->
  length (Cache.coins c) = length (Cache.coins cache).
Proof.
  intros Htrig Hint Hlast Hcell Hn Hpass Hc.
  pose proof (pass_saves_last M luck s s' cache Hpass Hlast) as Hsaved.
  apply updateCacheLocations_Some in Hpass as (_ & Hr & _).
  destruct (regenerate_from _ _ _ _ _ _ Hr Hc) as [Hnil | (k & _ & Hm)].
  - inversion Hnil.
  - pose proof (materialize_cell _ _ _ _ Hm) as [Hslot _].
    pose proof (slotCell_player_cell M luck luck_unit _ _ _ Htrig Hint Hslot)
      as Hc'.
    rewrite Hc', <- Hcell in Hslot.
    rewrite (materialize_restored M luck _ _ _ _ _ _ Hslot Hsaved Hn) in Hm.
    injection Hm as <-. apply length_makeCoins.
Qed.

End Levelling.

Lemma polyMath_bounded (x : Q) :
  (-1 <= clamp (-1) 1 x)%Q /\ (clamp (-1) 1 x <= 1)%Q.
Proof.
  unfold clamp.
  destruct (Qle_bool x (-1)) eqn:H1; [split; discriminate|].
  destruct (Qle_bool 1 x) eqn:H2; [split; discriminate|].
  split.
  - apply Qnot_lt_le. intros Hlt. apply Qlt_le_weak in Hlt.
    apply Qle_bool_iff in Hlt. congruence.
  - apply Qnot_lt_le. intros Hlt. apply Qlt_le_weak in Hlt.
    apply Qle_bool_iff in Hlt. congruence.
Qed.

(** The stand-in functions and the sample positions meet the assumptions
    of this section. *)
Lemma polyMath_boundedTrig :
  boundedTrig polyMath point55 /\ boundedTrig polyMath OAKES_CLASSROOM /\
  interior point55 /\ interior OAKES_CLASSROOM.
Proof.
  assert (Hcos : forall x : Q,
            (-1 <= Math.cos polyMath x)%Q /\ (Math.cos polyMath x <= 1)%Q)
    by (intros x; apply polyMath_bounded).
  assert (Hsin : forall x : Q,
            (-1 <= Math.sin polyMath x)%Q /\ (Math.sin polyMath x <= 1)%Q)
    by (intros x; apply polyMath_bounded).
  split; [|split; [|split]].
  - split; [exact Hcos|]. split; [exact Hsin|]. vm_compute. discriminate.
  - split; [exact Hcos|]. split; [exact Hsin|]. vm_compute. discriminate.
  - split; vm_compute; reflexivity.
  - split; vm_compute; reflexivity.
Qed.

Lemma demoLuck_unit : unitLuck demoLuck.
Proof.
  intros key. unfold demoLuck, tableLuck.
  destruct (list_find _ _) as [[i [k v]]|] eqn:Hfind; [|split; [discriminate | reflexivity]].
  apply list_find_Some in Hfind as (Hi & _ & _).
  do 10 (destruct i as [|i]; [injection Hi as _ <-; split; [discriminate | reflexivity]|]).
  destruct i; discriminate.
Qed.

(** ** Where the program and its description part *)

(** Facts about closed runs are settled by evaluation, one conjunct at a
    time. *)
Ltac conjuncts :=
  repeat match goal with |- _ /\ _ => split end.
Ltac run := vm_compute; first [reflexivity | discriminate].

(** C1. The pass keys mementos by cell, so two live caches in one cell
    share one memento and the later one's count wins.  On [sharedCellGame]
    the cache [cache-0] is live in cell (5, 5) with 2 coins; the pass
    evicts it and, the cell being visible again in the same pass, brings it
    back with the 7 coins of [cache-1].  The same happens when the program
    starts: the five initial caches hold 4, 2, 3, 6 and 7 coins, and after
    the first pass every cache holds 7; a coin then collected from the
    first cache is back in it after the next move. *)
Theorem shared_cell_restores_other_count :
  cacheLocations sharedCellGame !! 0%nat = Some (cacheWith cell55 "cache-0" 2) /\
  slotCell polyMath demoLuck (playerLocation sharedCellGame) 0 = Some cell55 /\
  cacheLocations <$> updateCacheLocations polyMath demoLuck sharedCellGame =
    Some (map (fun k => cacheWith cell55 (cacheIdOf k) 7) (seq 0 5)) /\
  coinCounts <$>
    initializeCacheLocations polyMath demoLuck OAKES_CLASSROOM 5 100
      initialGame = Some [4; 2; 3; 6; 7]%nat /\
  coinCounts <$> startGame polyMath demoLuck = Some [7; 7; 7; 7; 7]%nat /\
  (coinCounts <$>
     (fst <$> (handleCollect 0 <$> startGame polyMath demoLuck))) =
    Some [6; 7; 7; 7; 7]%nat /\
  (coinCounts <$>
     (startGame polyMath demoLuck ≫= fun s =>
      movePlayer polyMath demoLuck north (fst (handleCollect 0 s)))) =
    Some [7; 7; 7; 7; 7]%nat.
Proof. conjuncts; run. Qed.

(** C8, as stated, fails: with the memento [5,5,abc] stored for cell
    (5, 5), round 0 of the pass materializes the cache with no coin at
    all; generation would have given it 4 coins, and the five caches of
    the pass 4, 2, 3, 6 and 7. *)
Lemma malformed_snapshot_no_fallback :
  countless "5,5,abc" /\
  geocacheMementos malformedGame !! cacheKey cell55 = Some "5,5,abc"%string /\
  slotCell polyMath demoLuck (playerLocation malformedGame) 0 = Some cell55 /\
  materialize polyMath demoLuck (geocacheMementos malformedGame)
    (playerLocation malformedGame) 0 =
    Some (Some (cacheWith cell55 "cache-0" 0)) /\
  materialize polyMath demoLuck (geocacheMementos malformedGame)
    (playerLocation malformedGame) 0 <>
    Some (Some (cacheWith cell55 "cache-0"
                  (Z.to_nat (generateNumberOfCoins demoLuck "cache-0")))) /\
  generateNumberOfCoins demoLuck "cache-0" = 4 /\
  coinCounts <$> updateCacheLocations polyMath demoLuck malformedGame =
    Some [0; 0; 0; 0; 0]%nat.
Proof.
  split; [right; run|]. conjuncts; run.
Qed.

(** C8, amended. A stored memento that is not the empty string is never
    validated and never replaced by generation: round [k] takes the count
    that [Number] reads off the third field.  When that field is missing
    or is not a number, the round pushes a cache with an empty coin list
    (its coin count is 0, not undefined or NaN) and the loop goes on with
    the remaining rounds as it would after any other round. *)
Theorem malformed_snapshot_restores_empty
  (M : Math.lib) (luck : string -> Q) (mementos : gmap string string)
  (player : LatLng.t) (k : nat) (cell : Cell.t) (momento : string)
  (slots : list nat) (caches : list Cache.t) :
  slotCell M luck player k = Some cell ->
  mementos !! cacheKey cell = Some momento ->
  momento <> EmptyString ->
  (materialize M luck mementos player k =
   match JS.iterations
           (Geocache.numCoins
              (Geocache.fromMomento
                 (Geocache.mk (JS.ofZ (Cell.i cell)) (JS.ofZ (Cell.j cell))
                              (JS.ofZ 0)) momento)) with
   | Some n => Some (Some (cacheWith cell (cacheIdOf k) n))
   | None => None
   end) /\
  (countless momento ->
   materialize M luck mementos player k =
     Some (Some (Cache.mk cell [] (cacheIdOf k))) /\
   regenerate M luck mementos player (k :: slots) caches =
     regenerate M luck mementos player slots
       (caches ++ [Cache.mk cell [] (cacheIdOf k)])).
Proof.
  intros [Hv Hc]%slotCell_Some Hm Hne.
  assert (Hgen : materialize M luck mementos player k =
   match JS.iterations
           (Geocache.numCoins
              (Geocache.fromMomento
                 (Geocache.mk (JS.ofZ (Cell.i cell)) (JS.ofZ (Cell.j cell))
                              (JS.ofZ 0)) momento)) with
   | Some n => Some (Some (cacheWith cell (cacheIdOf k) n))
   | None => None
   end).
  { unfold materialize. rewrite Hv, Hc. unfold restoredOrGenerated.
    rewrite Hm. destruct momento; [congruence|]. reflexivity. }
  split; [exact Hgen|].
  intros Hcountless.
  assert (Hmat : materialize M luck mementos player k =
                 Some (Some (Cache.mk cell [] (cacheIdOf k)))).
  { rewrite Hgen. unfold countless in Hcountless.
    unfold Geocache.fromMomento in *. cbn [Geocache.numCoins] in *.
    destruct Hcountless as [-> | ->]; reflexivity. }
  split; [exact Hmat|]. cbn [regenerate]. rewrite Hmat. reflexivity.
Qed.

Lemma malformed_snapshot_restores_empty_witness :
  regenerate polyMath demoLuck (geocacheMementos malformedGame)
    (playerLocation malformedGame) [0; 1]%nat [] =
  regenerate polyMath demoLuck (geocacheMementos malformedGame)
    (playerLocation malformedGame) [1%nat] [Cache.mk cell55 [] (cacheIdOf 0)].
Proof.
  apply (malformed_snapshot_restores_empty polyMath demoLuck
           (geocacheMementos malformedGame) (playerLocation malformedGame)
           0 cell55 "5,5,abc" [1%nat] []).
  - vm_compute. reflexivity.
  - vm_compute. reflexivity.
  - discriminate.
  - right. vm_compute. reflexivity.
Defined.

(** C4, as stated, fails: the coin popped from [cache-0] is [5:5#0] of
    [cache-0]; the purse keeps a count, not the coin; the deposit into the
    second cache mints [cache-1-coin-0] of [cache-1], another coin; the
    popped coin is in no cache afterwards; and the next pass renames the
    deposited coin to [5:5#0]. *)
Lemma coin_identity_lost :
  (Cache.coins <$> cacheLocations twoCacheGame !! 0%nat) =
    Some [Coin.mk "5:5#0" "cache-0"] /\
  playerCoins afterCollect = 1 /\
  map Cache.coins (cacheLocations afterCollect) = [[]; []] /\
  map Cache.coins (cacheLocations afterDeposit) =
    [[]; [Coin.mk "cache-1-coin-0" "cache-1"]] /\
  Coin.mk "cache-1-coin-0" "cache-1" <> Coin.mk "5:5#0" "cache-0" /\
  (map Cache.coins <$>
     (cacheLocations <$> updateCacheLocations polyMath demoLuck afterDeposit)) =
    Some (map (fun k => [Coin.mk "5:5#0" (cacheIdOf k)]) (seq 0 5)).
Proof. conjuncts; run. Qed.

(** C4, amended. Coins that stay in a cache keep their id, their
    originatingCacheId and their order under collect and deposit; collect
    pops the last coin and keeps only a count of it; deposit appends a
    newly minted coin named [cache-<index>-coin-<length>] whose
    originatingCacheId is the receiving cache's id; and a memento keeps
    the length of the coin list only: the cache that a round restores from
    it holds that many regenerated coins, named [i:j#0], [i:j#1], ... after
    the cell and originating from the round's cache id. *)
Theorem coins_under_transfer (index : nat) (s : Game) (cache : Cache.t) :
  cacheLocations s !! index = Some cache ->
  (Cache.coins cache <> [] ->
   cacheLocations (fst (handleCollect index s)) !! index =
     Some (setCoins cache (removelast (Cache.coins cache))) /\
   playerCoins (fst (handleCollect index s)) = playerCoins s + 1) /\
  (0 < playerCoins s ->
   cacheLocations (fst (handleDeposit index s)) !! index =
     Some (setCoins cache
             (Cache.coins cache ++
              [Coin.mk ("cache-" +:+ pretty index +:+ "-coin-" +:+
                        pretty (length (Cache.coins cache)))
                       (Cache.id cache)])) /\
   playerCoins (fst (handleDeposit index s)) = playerCoins s - 1) /\
  (forall (M : Math.lib) (luck : string -> Q) (k : nat) (s' : Game),
     lastInCell (cacheLocations s) cache ->
     Z.of_nat (length (Cache.coins cache)) <= JS.maxArrayLength ->
     (k < 5)%nat ->
     slotCell M luck (playerLocation s) k = Some (Cache.cell cache) ->
     updateCacheLocations M luck s = Some s' ->
     Cache.mk (Cache.cell cache)
       (map (fun j => Coin.mk (coinId (Cache.cell cache) j) (cacheIdOf k))
            (seq 0 (length (Cache.coins cache))))
       (cacheIdOf k) ∈ cacheLocations s').
Proof.
  intros Hk.
  assert (Hlt : (index < length (cacheLocations s))%nat)
    by (eapply lookup_lt_Some; eassumption).
  split; [|split].
  - intros Hne. destruct (handleCollect_some s index cache Hk Hne) as [msg ->].
    cbn [fst cacheLocations playerCoins].
    split; [apply list_lookup_insert_eq; assumption | reflexivity].
  - intros Hp. destruct (handleDeposit_some s index cache Hk Hp) as [msg ->].
    cbn [fst cacheLocations playerCoins].
    split; [apply list_lookup_insert_eq; assumption | reflexivity].
  - intros M luck k s' Hlast Hn Hk5 Hslot Hpass.
    apply (last_in_cell_restored M luck s s' cache k); assumption.
Qed.

Lemma coins_under_transfer_witness :
  cacheLocations (fst (handleCollect 0 threeCoinGame)) !! 0%nat =
    Some (cacheWith cell55 "cache-0" 2) /\
  cacheLocations (fst (handleDeposit 0 purseGame)) !! 0%nat =
    Some (Cache.mk cell55
            (makeCoins cell55 "cache-0" 3 ++
             [Coin.mk "cache-0-coin-3" "cache-0"]) "cache-0").
Proof.
  split.
  - apply (coins_under_transfer 0 threeCoinGame (cacheWith cell55 "cache-0" 3)).
    + reflexivity.
    + discriminate.
  - apply (coins_under_transfer 0 purseGame (cacheWith cell55 "cache-0" 3)).
    + reflexivity.
    + reflexivity.
Defined.
Example Number_37 : JS.Number "37" = JS.Finite (37 # 1).
Proof. reflexivity. Qed.
Example Number_neg : JS.Number " -4 " = JS.Finite (-4 # 1).
Proof. vm_compute. reflexivity. Qed.
Example Number_frac : JS.Number "2.50" = JS.Finite (5 # 2).
Proof. vm_compute. reflexivity. Qed.
Example Number_exp : JS.Number "1e3" = JS.Finite (1000 # 1).
Proof. vm_compute. reflexivity. Qed.
Example Number_hex : JS.Number "0x1F" = JS.Finite (31 # 1).
Proof. vm_compute. reflexivity. Qed.
Example Number_abc : JS.Number "abc" = JS.NaN.
Proof. vm_compute. reflexivity. Qed.
Example Number_empty : JS.Number "" = JS.Finite 0.
Proof. vm_compute. reflexivity. Qed.
Example Number_inf : JS.Number "-Infinity" = JS.Infinity true.
Proof. vm_compute. reflexivity. Qed.
Example Number_dot : JS.Number "." = JS.NaN.
Proof. vm_compute. reflexivity. Qed.
Example Number_5dot : JS.Number "5." = JS.Finite (5 # 1).
Proof. vm_compute. reflexivity. Qed.
Example split3 : JS.split "," "5,-5,2" = ["5"; "-5"; "2"]%string.
Proof. vm_compute. reflexivity. Qed.
Example toString_frac : JS.toString (JS.Num (JS.Finite (-5 # 4))) = "-1.25"%string.
Proof. vm_compute. reflexivity. Qed.
Example Number_ws : JS.Number "  12  " = JS.Finite (12 # 1).
Proof. vm_compute. reflexivity. Qed.
Example Number_inner_ws : JS.Number "1 2" = JS.NaN.
Proof. vm_compute. reflexivity. Qed.
Example Number_exp_neg : JS.Number "25e-1" = JS.Finite (5 # 2).
Proof. vm_compute. reflexivity. Qed.
Example Number_dot5 : JS.Number "-.5" = JS.Finite (-1 # 2).
Proof. vm_compute. reflexivity. Qed.
Example Number_bad_hex : JS.Number "0x" = JS.NaN.
Proof. vm_compute. reflexivity. Qed.
Example Number_signed_hex : JS.Number "-0x10" = JS.NaN.
Proof. vm_compute. reflexivity. Qed.
Example Number_e : JS.Number "1e" = JS.NaN.
Proof. vm_compute. reflexivity. Qed.
Example toMomento_552 :
  Geocache.toMomento (Geocache.mk (JS.ofZ 5) (JS.ofZ (-5)) (JS.ofZ 2)) =
  "5,-5,2"%string.
Proof. vm_compute. reflexivity. Qed.
Example fromMomento_short :
  Geocache.fromMomento (Geocache.mk (JS.ofZ 5) (JS.ofZ 5) (JS.ofZ 0)) "5,5" =
  Geocache.mk (JS.ofZ 5) (JS.ofZ 5) JS.Undefined.
Proof. vm_compute. reflexivity. Qed.
Example fromMomento_bad :
  Geocache.fromMomento (Geocache.mk (JS.ofZ 5) (JS.ofZ 5) (JS.ofZ 0)) "5,5,abc" =
  Geocache.mk (JS.ofZ 5) (JS.ofZ 5) (JS.Num JS.NaN).
Proof. vm_compute. reflexivity. Qed.
Example board_two_lookups :
  let b := Board.new tileWidth tileVisibilityRadius in
  let '(r1, b1) := Board.getCellForPoint b OAKES_CLASSROOM in
  let '(r2, b2) := Board.getCellForPoint b1 point55 in
  let '(r3, b3) := Board.getCellForPoint b2 OAKES_CLASSROOM in
  (r1, r2, r3) = (0, 1, 0)%nat /\
  Board.cells b3 = [Cell.mk 36989 (-122063); Cell.mk 5 5].
Proof. vm_compute. split; reflexivity. Qed.
Example cellOf_negative :
  Board.cellOf tileWidth (LatLng.latLng (- (1 # 10000)) (- (1 # 1000))) =
  Cell.mk (-1) (-1).
Proof. vm_compute. reflexivity. Qed.
Example iterations_fraction :
  JS.iterations (JS.Num (JS.Finite (5 # 2))) = Some 3%nat.
Proof. vm_compute. reflexivity. Qed.
Example iterations_infinite : JS.iterations (JS.Num (JS.Infinity false)) = None.
Proof. reflexivity. Qed.
Example collect_three_times :
  let s1 := fst (handleCollect 0 threeCoinGame) in
  let s2 := fst (handleCollect 0 s1) in
  let s3 := fst (handleCollect 0 s2) in
  coinCounts s3 = [0%nat] /\ playerCoins s3 = 3 /\
  handleCollect 0 s3 = (s3, EmptyCacheError).
Proof. vm_compute. repeat split; reflexivity. Qed.
Example deposit_out_of_range :
  handleDeposit 7 purseGame = (purseGame, TypeError).
Proof. vm_compute. reflexivity. Qed.

(** * Further properties *)

(** ** Clicks in sequence *)

Section Clicks.

Implicit Types (s : Game) (index : nat) (cache : Cache.t).



(** What one click does to the counts and what it leaves alone. *)
Lemma press_effect (c : click) s :
  totalCoins (press c s) = totalCoins s /\
  (0 <= playerCoins s -> 0 <= playerCoins (press c s)) /\
  map Cache.cell (cacheLocations (press c s)) =
    map Cache.cell (cacheLocations s) /\
  map Cache.id (cacheLocations (press c s)) =
    map Cache.id (cacheLocations s) /\
  geocacheMementos (press c s) = geocacheMementos s /\
  playerLocation (press c s) = playerLocation s /\
  (forall k : nat, k <> clickIndex c ->
     cacheLocations (press c s) !! k = cacheLocations s !! k).
Proof.
  assert (Hmap : forall (A : Type) (f : Cache.t -> A) index cache coins,
            cacheLocations s !! index = Some cache ->
            (forall x, f (setCoins cache x) = f cache) ->
            map f (<[index := setCoins cache coins]> (cacheLocations s)) =
            map f (cacheLocations s)).
  { intros A f index cache coins Hk Hf.
    change (map f ?l) with (f <$> l).
    rewrite list_fmap_insert, Hf. apply list_insert_id.
    rewrite list_lookup_fmap, Hk. reflexivity. }
  destruct c as [index | index]; cbn [press clickIndex].
  - destruct (cacheLocations s !! index) as [cache|] eqn:Hk.
    + destruct (Cache.coins cache) as [|c0 l] eqn:Hc.
      * rewrite (handleCollect_empty s index cache Hk Hc). cbn [fst].
        repeat split; auto.
      * destruct (handleCollect_some s index cache Hk) as [msg ->];
          [congruence|].
        cbn [fst playerCoins cacheLocations geocacheMementos playerLocation].
        unfold totalCoins. cbn [playerCoins cacheLocations].
        rewrite (cachedCoins_insert _ _ _ _ Hk). cbn [setCoins Cache.coins].
        assert (S (length (removelast (Cache.coins cache))) =
                length (Cache.coins cache))
          by (apply removelast_length_S; congruence).
        repeat split; try lia.
        -- apply Hmap; [exact Hk | reflexivity].
        -- apply Hmap; [exact Hk | reflexivity].
        -- intros k Hne. apply list_lookup_insert_ne. congruence.
    + unfold handleCollect. rewrite Hk. cbn [fst]. repeat split; auto.
  - destruct (Z.le_gt_cases (playerCoins s) 0) as [Hp|Hp].
    + rewrite handleDeposit_broke by assumption. cbn [fst].
      repeat split; auto.
    + destruct (cacheLocations s !! index) as [cache|] eqn:Hk.
      * destruct (handleDeposit_some s index cache Hk) as [msg ->]; [lia|].
        cbn [fst playerCoins cacheLocations geocacheMementos playerLocation].
        unfold totalCoins. cbn [playerCoins cacheLocations].
        rewrite (cachedCoins_insert _ _ _ _ Hk). cbn [setCoins Cache.coins].
        rewrite length_app. cbn [length].
        repeat split; try lia.
        -- apply Hmap; [exact Hk | reflexivity].
        -- apply Hmap; [exact Hk | reflexivity].
        -- intros k Hne. apply list_lookup_insert_ne. congruence.
      * unfold handleDeposit. rewrite Hk.
        destruct (0 <? playerCoins s); cbn [fst]; repeat split; auto.
Qed.

End Clicks.



(** X2. A sequence of clicks never adds, removes or reorders caches, never
    changes a cache's cell or id, never touches the mementos or the
    player's position, and leaves every cache whose index was not clicked
    exactly as it was. *)
Theorem clicks_change_only_clicked (cs : list click) (s : Game) :
  map Cache.cell (cacheLocations (pressAll cs s)) =
    map Cache.cell (cacheLocations s) /\
  map Cache.id (cacheLocations (pressAll cs s)) =
    map Cache.id (cacheLocations s) /\
  geocacheMementos (pressAll cs s) = geocacheMementos s /\
  playerLocation (pressAll cs s) = playerLocation s /\
  forall k : nat,
    k ∉ map clickIndex cs ->
    cacheLocations (pressAll cs s) !! k = cacheLocations s !! k.
Proof.
  revert s. induction cs as [|c cs IH]; intros s; cbn [pressAll foldl].
  - repeat split.
  - destruct (press_effect c s) as (_ & _ & Hc & Hi & Hm & Hl & Hk).
    destruct (IH (press c s)) as (IHc & IHi & IHm & IHl & IHk).
    unfold pressAll in *.
    rewrite IHc, IHi, IHm, IHl, Hc, Hi, Hm, Hl. repeat split.
    intros k Hnot. cbn [map] in Hnot. apply not_elem_of_cons in Hnot as [Hne Hnot].
    rewrite (IHk k Hnot). apply Hk, Hne.
Qed.





(** ** Keys, the save phase, restoration *)

Section Keys.

Lemma digit_not_sep (sep c : ascii) :
  JS.isDigit sep = false -> JS.isDigit c = true -> Ascii.eqb c sep = false.
Proof.
  intros Hsep Hc. destruct (Ascii.eqb_spec c sep) as [-> | _]; congruence.
Qed.

(** A printed integer has no character other than digits and the minus
    sign. *)
Lemma pretty_Z_no_sep (sep : ascii) (z : Z) :
  JS.isDigit sep = false -> Ascii.eqb "-" sep = false ->
  allChars (fun c => negb (Ascii.eqb c sep)) (pretty z) = true.
Proof.
  intros Hsep Hminus.
  destruct (pretty_Z_shape z) as (d & [Hall _] & _ & ->).
  rewrite allChars_app.
  assert (allChars (fun c => negb (Ascii.eqb c sep)) d = true) as ->.
  { revert Hall. apply allChars_weaken. intros c Hc.
    rewrite (digit_not_sep sep c Hsep Hc). reflexivity. }
  destruct (z <? 0); [|reflexivity]. cbn [allChars]. rewrite Hminus.
  reflexivity.
Qed.

Lemma pretty_nat_no_sep (sep : ascii) (n : nat) :
  JS.isDigit sep = false ->
  allChars (fun c => negb (Ascii.eqb c sep)) (pretty n) = true.
Proof.
  intros Hsep. destruct (pretty_N_numeral (N.of_nat n)) as [[Hall _] _].
  revert Hall. apply allChars_weaken. intros c Hc.
  rewrite (digit_not_sep sep c Hsep Hc). reflexivity.
Qed.

Lemma coinId_fields (cell : Cell.t) (j : nat) :
  JS.split ":" (coinId cell j) =
    [pretty (Cell.i cell); pretty (Cell.j cell) +:+ "#" +:+ pretty j] /\
  JS.split "#" (pretty (Cell.j cell) +:+ "#" +:+ pretty j) =
    [pretty (Cell.j cell); pretty j].
Proof.
  unfold coinId. split.
  - change (pretty (Cell.i cell) +:+ ":" +:+ ?r)
      with (pretty (Cell.i cell) +:+ String ":" r).
    rewrite split_field by (apply pretty_Z_no_sep; reflexivity).
    rewrite split_plain; [reflexivity|].
    rewrite !allChars_app, pretty_Z_no_sep, pretty_nat_no_sep by reflexivity.
    reflexivity.
  - change (pretty (Cell.j cell) +:+ "#" +:+ ?r)
      with (pretty (Cell.j cell) +:+ String "#" r).
    rewrite split_field by (apply pretty_Z_no_sep; reflexivity).
    rewrite split_plain by (apply pretty_nat_no_sep; reflexivity).
    reflexivity.
Qed.

Lemma coinId_inj (cell cell' : Cell.t) (j j' : nat) :
  coinId cell j = coinId cell' j' -> cell = cell' /\ j = j'.
Proof.
  intros H.
  destruct (coinId_fields cell j) as [H1 H2].
  destruct (coinId_fields cell' j') as [H1' H2'].
  rewrite H, H1' in H1. injection H1 as Hi Hrest.
  rewrite Hrest, H2 in H2'. injection H2' as Hj Hk.
  apply (inj pretty) in Hi, Hj, Hk.
  destruct cell, cell'. simpl in *. subst. split; reflexivity.
Qed.

End Keys.

(** X5. The memento key and the generated coin id are unambiguous: two
    cells have the same key only if they are the same cell (negative
    indices included), and two generated coin ids are equal only for the
    same cell and the same sequence number. *)
Theorem keys_are_injective (cell cell' : Cell.t) (j j' : nat) :
  (cacheKey cell = cacheKey cell' <-> cell = cell') /\
  (coinId cell j = coinId cell' j' <-> cell = cell' /\ j = j').
Proof.
  split.
  - split; [apply cacheKey_inj | intros ->; reflexivity].
  - split; [apply coinId_inj | intros [-> ->]; reflexivity].
Qed.

(** X6. After the save phase of a pass the memento under a cell's key is
    that of the last live cache in that cell, whatever it was before;
    for a cell without live cache it is what it was; and no key that
    had a memento ever loses it. *)
Theorem saveMementos_last_wins
  (caches : list Cache.t) (mementos : gmap string string) (cell : Cell.t) :
  saveMementos caches mementos !! cacheKey cell =
    match last (cachesIn cell caches) with
    | Some c => Some (mementoOf cell (length (Cache.coins c)))
    | None => mementos !! cacheKey cell
    end /\
  forall key : string,
    is_Some (mementos !! key) ->
    is_Some (saveMementos caches mementos !! key).
Proof.
  split.
  - induction caches as [|c caches IH] using rev_ind; [reflexivity|].
    rewrite saveMementos_app.
    change (saveMementos [c] ?m) with (saveMemento m c).
    unfold cachesIn in *. rewrite filter_app, filter_cons, filter_nil.
    destruct (decide (Cache.cell c = cell)) as [<- | Hne].
    + rewrite last_snoc. apply saveMemento_lookup.
    + rewrite app_nil_r, saveMemento_other by assumption. exact IH.
  - revert mementos. induction caches as [|c caches IH]; intros mementos key Hs;
      [exact Hs|].
    change (saveMementos (c :: caches) mementos)
      with (saveMementos caches (saveMemento mementos c)).
    apply IH. unfold saveMemento.
    destruct (decide (cacheKey (Cache.cell c) = key)) as [<- | Hne].
    + rewrite lookup_insert_eq. eauto.
    + rewrite lookup_insert_ne by assumption. exact Hs.
Qed.

(** X7. A cache that is the last live cache of its cell when a pass
    evicts it comes back with exactly its own coin count in the first
    later pass that resolves a round to its cell, provided no cache was
    live in that cell in between (so that the memento is still the one
    this pass saved). *)
Theorem sole_cache_restored
  (M : Math.lib) (luck : string -> Q) (s s1 s2 s3 : Game)
  (cache : Cache.t) (k : nat) :
  lastInCell (cacheLocations s) cache ->
  Z.of_nat (length (Cache.coins cache)) <= JS.maxArrayLength ->
  updateCacheLocations M luck s = Some s1 ->
  geocacheMementos s2 !! cacheKey (Cache.cell cache) =
    geocacheMementos s1 !! cacheKey (Cache.cell cache) ->
  noCacheIn (cacheLocations s2) (Cache.cell cache) ->
  (k < 5)%nat ->
  slotCell M luck (playerLocation s2) k = Some (Cache.cell cache) ->
  updateCacheLocations M luck s2 = Some s3 ->
  cacheWith (Cache.cell cache) (cacheIdOf k) (length (Cache.coins cache))
    ∈ cacheLocations s3.
Proof.
  intros Hlast Hn Hpass Hsame Hno Hk Hslot Hpass'.
  eapply restored_from_memento; try eassumption.
  rewrite Hsame. eapply pass_saves_last; eassumption.
Qed.

Lemma sole_cache_restored_witness :
  map Cache.cell (cacheLocations awayGame) = replicate 5 (Cell.mk 6 5) /\
  cacheWith cell55 (cacheIdOf 0) 3 ∈ cacheLocations returnedGame.
Proof.
  split; [vm_compute; reflexivity|].
  apply (sole_cache_restored polyMath demoLuck threeCoinGame evictedGame
           (moveTo point55 awayGame) returnedGame
           (cacheWith cell55 "cache-0" 3) 0).
  - exists [], []. split; [reflexivity | constructor].
  - vm_compute. discriminate.
  - vm_compute. reflexivity.
  - vm_compute. reflexivity.
  - vm_compute. repeat constructor; discriminate.
  - lia.
  - vm_compute. reflexivity.
  - vm_compute. reflexivity.
Defined.

(** ** A pass well inside a cell *)

Section Interior.

Context (M : Math.lib) (luck : string -> Q).
Hypothesis luck_unit : unitLuck luck.

Implicit Types (s : Game) (player : LatLng.t) (k n : nat)
  (mementos : gmap string string).

(** The loop of a pass at an interior position: one cache per visible
    round, all in the player's cell, each with the count of the cell's
    memento if there is one. *)
Lemma regenerate_interior mementos player (slots : list nat)
  (caches : list Cache.t) :
  boundedTrig M player -> interior player ->
  let P := Board.cellOf tileWidth player in
  (mementos !! cacheKey P = None \/
   exists cell n, mementos !! cacheKey P = Some (mementoOf cell n) /\
                  Z.of_nat n <= JS.maxArrayLength) ->
  exists count : nat -> nat,
    (forall k, Z.of_nat (count k) <= JS.maxArrayLength) /\
    (forall cell n, mementos !! cacheKey P = Some (mementoOf cell n) ->
                    forall k, count k = n) /\
    regenerate M luck mementos player slots caches =
      Some (caches ++
            map (fun k => cacheWith P (cacheIdOf k) (count k))
                (visibleSlots M luck player slots)).
Proof.
  intros Htrig Hint P Hm.
  assert (Hloop : forall count : nat -> nat,
            (forall k cell,
               slotCell M luck player k = Some cell ->
               materialize M luck mementos player k =
               Some (Some (cacheWith P (cacheIdOf k) (count k)))) ->
            forall caches,
            regenerate M luck mementos player slots caches =
            Some (caches ++
                  map (fun k => cacheWith P (cacheIdOf k) (count k))
                      (visibleSlots M luck player slots))).
  { intros count Hcount.
    induction slots as [|i slots IH]; intros acc; cbn [regenerate].
    - cbn. rewrite app_nil_r. reflexivity.
    - unfold visibleSlots in *. cbn [List.filter].
      destruct (slotCell M luck player i) as [cell|] eqn:Hslot.
      + rewrite (Hcount i cell Hslot).
        apply slotCell_Some in Hslot as [-> _].
        rewrite IH. cbn [map]. rewrite <- app_assoc. reflexivity.
      + rewrite (materialize_hidden M luck _ _ _ Hslot).
        unfold slotCell in Hslot.
        destruct (isCacheVisible _ _ _); [discriminate | apply IH]. }
  destruct Hm as [Hnone | (cell & n & Hsome & Hn)].
  - exists (fun k => Z.to_nat (generateNumberOfCoins luck (cacheIdOf k))).
    split; [|split].
    + intros k. pose proof (generated_fits luck luck_unit (cacheIdOf k)). lia.
    + intros cell n Hsome. congruence.
    + apply Hloop. intros k cell Hslot.
      pose proof (slotCell_player_cell M luck luck_unit _ _ _ Htrig Hint Hslot)
        as ->.
      pose proof (generated_fits luck luck_unit (cacheIdOf k)).
      apply materialize_generated; [exact Hslot | exact Hnone | lia].
  - exists (fun _ => n). split; [|split].
    + intros _. exact Hn.
    + intros cell' n' Hsome' _. rewrite Hsome in Hsome'.
      injection Hsome' as Heq. rewrite !mementoOf_shape in Heq.
      apply (f_equal (JS.split ",")) in Heq.
      change (?a +:+ "," +:+ ?b +:+ "," +:+ ?c)
        with (a +:+ String "," (b +:+ String "," c)) in Heq.
      rewrite !split_field, !split_plain in Heq by apply pretty_no_comma.
      injection Heq as _ _ Heq. apply (inj pretty) in Heq. lia.
    + apply Hloop. intros k cell0 Hslot.
      pose proof (slotCell_player_cell M luck luck_unit _ _ _ Htrig Hint Hslot)
        as ->.
      eapply materialize_restored; [exact Hslot | exact Hsome | exact Hn].
Qed.

(** The save phase when all live caches are in one cell. *)
Lemma saveMementos_one_cell (caches : list Cache.t) (c : Cache.t)
  (P : Cell.t) mementos :
  Forall (fun c' => Cache.cell c' = P) (caches ++ [c]) ->
  saveMementos (caches ++ [c]) mementos =
  <[cacheKey P := mementoOf P (length (Cache.coins c))]> mementos.
Proof.
  revert mementos. induction caches as [|c0 caches IH]; intros mementos Hall.
  - cbn [app] in *. apply Forall_inv in Hall. cbv beta in Hall.
    change (saveMementos [c] mementos) with (saveMemento mementos c).
    unfold saveMemento. rewrite Hall. reflexivity.
  - cbn [app] in *. apply Forall_cons in Hall as [Hc0 Hall].
    cbv beta in Hc0.
    change (saveMementos (c0 :: ?l) mementos)
      with (saveMementos l (saveMemento mementos c0)).
    rewrite (IH _ Hall). unfold saveMemento. rewrite Hc0.
    apply insert_insert_eq.
Qed.

End Interior.

Section Settling.

Context (M : Math.lib) (luck : string -> Q).
Hypothesis luck_unit : unitLuck luck.

Implicit Types (s : Game) (player : LatLng.t) (k n : nat)
  (mementos : gmap string string).

(** The ids of the caches that the loop pushes are those of the visible
    rounds, in order. *)
Lemma regenerate_ids mementos player (slots : list nat)
  (caches caches' : list Cache.t) :
  regenerate M luck mementos player slots caches = Some caches' ->
  map Cache.id caches' =
  map Cache.id caches ++ map cacheIdOf (visibleSlots M luck player slots).
Proof.
  revert caches. induction slots as [|i slots IH]; intros caches;
    cbn [regenerate].
  - intros [= <-]. cbn. rewrite app_nil_r. reflexivity.
  - unfold visibleSlots in *. cbn [List.filter].
    unfold materialize at 1.
    destruct (isCacheVisible _ _ _).
    + destruct (JS.iterations _); [|discriminate].
      intros Hr%IH. rewrite Hr, map_app, <- app_assoc. reflexivity.
    + apply IH.
Qed.

Lemma Forall_map_all {A B : Type} (Q : B -> Prop) (f : A -> B) (l : list A) :
  (forall x, Q (f x)) -> Forall Q (map f l).
Proof. intros H. induction l; constructor; auto. Qed.

Lemma pass_unfold s (caches : list Cache.t) :
  regenerate M luck (saveMementos (cacheLocations s) (geocacheMementos s))
    (playerLocation s) (seq 0 5) [] = Some caches ->
  updateCacheLocations M luck s =
  Some (mkGame (playerCoins s) (playerLocation s) caches
               (saveMementos (cacheLocations s) (geocacheMementos s))).
Proof. intros Hr. unfold updateCacheLocations. rewrite Hr. reflexivity. Qed.

End Settling.

(** X8. With cosine and sine within [-1, 1], a value generator within
    [0, 1) and the player at least 1e-7 degrees inside a grid cell, every
    cache that a pass materializes lies in the player's own cell (the
    candidates are at most 0.005 m away), and the caches carry, in order,
    the ids of the rounds that passed the visibility test. *)
Theorem pass_caches_in_player_cell
  (M : Math.lib) (luck : string -> Q) (s s' : Game) :
  unitLuck luck ->
  boundedTrig M (playerLocation s) -> interior (playerLocation s) ->
  updateCacheLocations M luck s = Some s' ->
  Forall (fun c => Cache.cell c = Board.cellOf tileWidth (playerLocation s))
         (cacheLocations s') /\
  map Cache.id (cacheLocations s') =
    map cacheIdOf (visibleSlots M luck (playerLocation s) (seq 0 5)).
Proof.
  intros Hluck Htrig Hint Hpass. split.
  - apply Forall_forall. intros c Hc.
    eapply (pass_in_player_cell M luck Hluck s s'); eassumption.
  - apply updateCacheLocations_Some in Hpass as (Hm & Hr & _ & _).
    apply regenerate_ids in Hr. exact Hr.
Qed.

Lemma pass_caches_in_player_cell_witness :
  map Cache.cell (cacheLocations (passed sharedCellGame)) =
    replicate 5 cell55 /\
  map Cache.id (cacheLocations (passed sharedCellGame)) =
    map cacheIdOf (seq 0 5).
Proof.
  destruct (pass_caches_in_player_cell polyMath demoLuck sharedCellGame
              (passed sharedCellGame)) as [Hcells Hids].
  - apply demoLuck_unit.
  - apply polyMath_boundedTrig.
  - apply polyMath_boundedTrig.
  - vm_compute. reflexivity.
  - split; [vm_compute; reflexivity|].
    rewrite Hids. vm_compute. reflexivity.
Defined.

(** X9. Under the same assumptions and from a fitting state, passes at
    one position settle after two runs: the second pass gives every cache
    the same coin count, and a third pass changes nothing at all. *)
Theorem pass_settles (M : Math.lib) (luck : string -> Q) (s : Game) :
  unitLuck luck ->
  boundedTrig M (playerLocation s) -> interior (playerLocation s) ->
  fitting s ->
  exists s1 s2 : Game,
    updateCacheLocations M luck s = Some s1 /\
    updateCacheLocations M luck s1 = Some s2 /\
    updateCacheLocations M luck s2 = Some s2 /\
    exists n : nat,
      Forall (fun c => length (Cache.coins c) = n) (cacheLocations s2).
Proof.
  intros Hluck Htrig Hint [Hsound Hfit].
  set (p := playerLocation s). set (P := Board.cellOf tileWidth p).
  set (V := visibleSlots M luck p (seq 0 5)).
  set (m1 := saveMementos (cacheLocations s) (geocacheMementos s)).
  assert (Hsound1 : soundMementos m1)
    by (apply saveMementos_sound; assumption).
  assert (Hat : forall m : gmap string string, soundMementos m ->
            m !! cacheKey P = None \/
            exists cell n, m !! cacheKey P = Some (mementoOf cell n) /\
                           Z.of_nat n <= JS.maxArrayLength).
  { intros m Hm. destruct (m !! cacheKey P) as [momento|] eqn:E;
      [|left; reflexivity].
    right. destruct (Hm _ _ E) as (cell & n & Hn & ->). eauto. }
  destruct (regenerate_interior M luck Hluck m1 p (seq 0 5) [] Htrig Hint
              (Hat m1 Hsound1)) as (count1 & Hc1 & _ & Hr1).
  cbn [app] in Hr1. fold P V in Hr1.
  set (f1 := fun k => cacheWith P (cacheIdOf k) (count1 k)) in *.
  set (s1 := mkGame (playerCoins s) p (map f1 V) m1).
  assert (H1 : updateCacheLocations M luck s = Some s1)
    by (apply pass_unfold; exact Hr1).
  exists s1.
  destruct (decide (V = [])) as [HV | HV].
  - exists s1.
    assert (Hs : saveMementos (map f1 V) m1 = m1)
      by (rewrite HV; reflexivity).
    assert (H2 : updateCacheLocations M luck s1 = Some s1).
    { rewrite (pass_unfold M luck s1 (map f1 V));
        cbn [s1 playerCoins playerLocation cacheLocations geocacheMementos];
        rewrite Hs; [reflexivity | exact Hr1]. }
    repeat split; try assumption. exists 0%nat.
    cbn [s1 cacheLocations]. rewrite HV. constructor.
  - destruct (exists_last HV) as (V' & v & HVeq).
    set (n := count1 v).
    set (m2 := <[cacheKey P := mementoOf P n]> m1).
    assert (Hsave : forall (g : nat -> nat) (m : gmap string string),
              g v = n ->
              saveMementos (map (fun k => cacheWith P (cacheIdOf k) (g k)) V) m
              = <[cacheKey P := mementoOf P n]> m).
    { intros g m Hg. rewrite HVeq, map_app. cbn [map].
      rewrite (saveMementos_one_cell _ _ P).
      - cbn [cacheWith Cache.coins]. rewrite length_makeCoins, Hg.
        reflexivity.
      - apply Forall_app. split; [apply Forall_map_all; reflexivity|].
        apply Forall_singleton. reflexivity. }
    assert (Hlevel : forall m : gmap string string,
              m !! cacheKey P = Some (mementoOf P n) ->
              regenerate M luck m p (seq 0 5) [] =
              Some (map (fun k => cacheWith P (cacheIdOf k) n) V)).
    { intros m Hm.
      destruct (regenerate_interior M luck Hluck m p (seq 0 5) [] Htrig Hint)
        as (count2 & _ & Hsame & Hr2).
      { right. exists P, n. split; [exact Hm | apply Hc1]. }
      cbn [app] in Hr2. rewrite Hr2. f_equal. apply map_ext.
      intros k. rewrite (Hsame P n Hm k). reflexivity. }
    set (s2 := mkGame (playerCoins s) p
                 (map (fun k => cacheWith P (cacheIdOf k) n) V) m2).
    exists s2.
    assert (H2 : updateCacheLocations M luck s1 = Some s2).
    { rewrite (pass_unfold M luck s1
                 (map (fun k => cacheWith P (cacheIdOf k) n) V)).
      - cbn [s1 playerCoins playerLocation cacheLocations geocacheMementos].
        unfold f1. rewrite (Hsave count1 m1 eq_refl). reflexivity.
      - cbn [s1 playerCoins playerLocation cacheLocations geocacheMementos].
        unfold f1. rewrite (Hsave count1 m1 eq_refl).
        apply Hlevel. apply lookup_insert_eq. }
    assert (H3 : updateCacheLocations M luck s2 = Some s2).
    { rewrite (pass_unfold M luck s2
                 (map (fun k => cacheWith P (cacheIdOf k) n) V)).
      - cbn [s2 playerCoins playerLocation cacheLocations geocacheMementos].
        rewrite (Hsave (fun _ => n) m2 eq_refl). unfold m2.
        rewrite insert_insert_eq. reflexivity.
      - cbn [s2 playerCoins playerLocation cacheLocations geocacheMementos].
        rewrite (Hsave (fun _ => n) m2 eq_refl).
        apply Hlevel. apply lookup_insert_eq. }
    repeat split; try assumption.
    exists n. apply Forall_map_all. intros k. apply length_makeCoins.
Qed.

Lemma pass_settles_witness :
  exists s1 s2 : Game,
    updateCacheLocations polyMath demoLuck sharedCellGame = Some s1 /\
    updateCacheLocations polyMath demoLuck s1 = Some s2 /\
    updateCacheLocations polyMath demoLuck s2 = Some s2 /\
    exists n : nat,
      Forall (fun c => length (Cache.coins c) = n) (cacheLocations s2).
Proof.
  apply (pass_settles polyMath demoLuck sharedCellGame).
  - apply demoLuck_unit.
  - apply polyMath_boundedTrig.
  - apply polyMath_boundedTrig.
  - split.
    + intros key momento H. cbn in H. rewrite lookup_empty in H.
      discriminate.
    + repeat constructor; vm_compute; discriminate.
Defined.

(** ** Moves, clicks and the saved game *)

Section SessionFacts.

Context (M : Math.lib) (luck : string -> Q).

Implicit Types (ss : Session) (g : Game).





(** What a pass leaves alone. *)
Lemma pass_frame g g' :
  updateCacheLocations M luck g = Some g' ->
  playerCoins g' = playerCoins g /\ playerLocation g' = playerLocation g.
Proof. intros (_ & _ & Hc & Hl)%updateCacheLocations_Some. tauto. Qed.

Lemma movePlayer_effect (d : direction) ss ss' :
  App.movePlayer M luck d ss = Some ss' ->
  movementHistory ss' = movementHistory ss ++ [playerLocation (game ss')] /\
  localStorage ss' = Some (gameStateOf ss') /\
  playerCoins (game ss') = playerCoins (game ss) /\
  geolocationActive ss' = geolocationActive ss /\
  watchers ss' = watchers ss /\
  exists g, movePlayer M luck d (game ss) = Some g /\ game ss' = g.
Proof.
  unfold App.movePlayer.
  destruct (movePlayer M luck d (game ss)) as [g|] eqn:Hg; [|discriminate].
  intros [= <-]. cbn.
  unfold movePlayer in Hg. apply pass_frame in Hg as [Hc _].
  repeat split; try assumption. eauto.
Qed.

End SessionFacts.

(** X10. A run of moves that completes appends one position per move to
    the movement history, the last one being the player's position; the
    saved game is then the current state; and no move changes the
    player's coins. *)
Theorem moves_record_path
  (M : Math.lib) (luck : string -> Q) (ds : list direction)
  (ss ss' : Session) :
  moves M luck ds ss = Some ss' ->
  length (movementHistory ss') =
    (length (movementHistory ss) + length ds)%nat /\
  movementHistory ss `prefix_of` movementHistory ss' /\
  playerCoins (game ss') = playerCoins (game ss) /\
  (ds <> [] ->
   last (movementHistory ss') = Some (playerLocation (game ss')) /\
   localStorage ss' = Some (gameStateOf ss')).
Proof.
  revert ss. induction ds as [|d ds IH]; intros ss; cbn [moves].
  - intros [= <-]. rewrite Nat.add_0_r.
    split; [reflexivity|]. split; [reflexivity|]. split; [reflexivity|].
    intros Hds. congruence.
  - destruct (App.movePlayer M luck d ss) as [ss1|] eqn:H1; [|discriminate].
    intros Hrest.
    destruct (movePlayer_effect M luck d ss ss1 H1)
      as (Hh & Hs & Hc & _ & _ & _).
    destruct (IH ss1 Hrest) as (IHl & IHp & IHc & IHlast).
    rewrite Hh in IHl, IHp. rewrite length_app in IHl. cbn [length] in *.
    split; [lia|]. split.
    { etrans; [|exact IHp]. apply prefix_app_r. reflexivity. }
    split; [congruence|]. intros _.
    destruct ds as [|d' ds'].
    + cbn [moves] in Hrest. injection Hrest as <-.
      rewrite Hh, last_snoc. split; [reflexivity | exact Hs].
    + apply IHlast. discriminate.
Qed.

Lemma moves_record_path_witness :
  exists ss',
    moves polyMath demoLuck [north; north; east] purseSession = Some ss' /\
    length (movementHistory ss') = 3%nat /\
    localStorage ss' = Some (gameStateOf ss').
Proof.
  eexists. split; [vm_compute; reflexivity|].
  pose proof (moves_record_path polyMath demoLuck [north; north; east]
                purseSession _ ltac:(vm_compute; reflexivity))
    as (Hl & _ & _ & Hs).
  split; [exact Hl | apply Hs; discriminate].
Defined.




(** ** What holds in every reachable session *)

Section Shapes.

Context (M : Math.lib) (luck : string -> Q).

Implicit Types (g : Game) (ss : Session) (c : Cache.t).

Lemma filter_sublist {A : Type} (f : A -> bool) (l : list A) :
  List.filter f l `sublist_of` l.
Proof.
  induction l as [|x l IH]; cbn [List.filter]; [constructor|].
  destruct (f x); constructor; exact IH.
Qed.

Lemma sublist_map {A B : Type} (f : A -> B) (l1 l2 : list A) :
  l1 `sublist_of` l2 -> map f l1 `sublist_of` map f l2.
Proof. induction 1; cbn [map]; constructor; assumption. Qed.

Lemma slot_ids_NoDup : NoDup (map cacheIdOf (seq 0 5)).
Proof.
  apply (bool_decide_unpack (NoDup (map cacheIdOf (seq 0 5)))).
  vm_compute. exact I.
Qed.

Lemma makeCoins_lookup (cell : Cell.t) (cacheId : string) (n k : nat)
  (coin : Coin.t) :
  makeCoins cell cacheId n !! k = Some coin ->
  (k < n)%nat /\ coin = Coin.mk (coinId cell k) cacheId.
Proof.
  unfold makeCoins.
  change (map ?f ?l) with (f <$> l).
  rewrite list_lookup_fmap. intros Hk.
  apply fmap_Some in Hk as (j & Hj & ->).
  apply lookup_seq in Hj as [-> Hlt]. split; [exact Hlt | reflexivity].
Qed.

Lemma cacheWith_numbered (index : nat) (cell : Cell.t) (cacheId : string)
  (n : nat) : numbered index (cacheWith cell cacheId n).
Proof.
  intros k coin Hk. cbn [cacheWith Cache.coins Cache.cell] in *.
  apply makeCoins_lookup in Hk as [_ ->]. left. reflexivity.
Qed.

Lemma materialize_shape (mementos : gmap string string) (player : LatLng.t)
  (k : nat) c :
  materialize M luck mementos player k = Some (Some c) ->
  exists n, c = cacheWith (Cache.cell c) (cacheIdOf k) n.
Proof.
  unfold materialize. destruct (isCacheVisible _ _ _); [|discriminate].
  destruct (JS.iterations _) as [n|]; [|discriminate].
  intros [= <-]. exists n. reflexivity.
Qed.

(** The caches after a pass. *)
Lemma pass_tidy g g' : updateCacheLocations M luck g = Some g' -> tidy g'.
Proof.
  intros (_ & Hr & _ & _)%updateCacheLocations_Some. split.
  - rewrite (regenerate_ids M luck _ _ _ _ _ Hr). cbn [map app].
    apply sublist_map, filter_sublist.
  - intros index c Hc.
    destruct (regenerate_from M luck _ _ _ _ _ c Hr) as [Hin | (k & _ & Hm)].
    + eapply list_elem_of_lookup_2. exact Hc.
    + apply elem_of_nil in Hin. contradiction.
    + apply materialize_shape in Hm as [n ->]. apply cacheWith_numbered.
Qed.

(** The caches that [initializeCacheLocations] pushes. *)
Lemma initialCaches_shape (center : LatLng.t) (radius : Q)
  (slots : list nat) (caches : list Cache.t) :
  mapM (initialCache M luck center radius) slots = Some caches ->
  map Cache.id caches = map cacheIdOf slots /\
  Forall (fun c =>
            exists n, c = cacheWith (Cache.cell c) (Cache.id c) n) caches.
Proof.
  rewrite mapM_Some. induction 1 as [|k c slots caches Hk _ [IHi IHf]].
  - split; [reflexivity | constructor].
  - unfold initialCache in Hk.
    destruct (JS.iterations _) as [n|]; [|discriminate].
    injection Hk as <-. cbn [map Cache.id]. rewrite IHi.
    split; [reflexivity|]. constructor; [|exact IHf].
    exists n. reflexivity.
Qed.

Lemma removelast_lookup {A : Type} (l : list A) (k : nat) (x : A) :
  removelast l !! k = Some x -> l !! k = Some x.
Proof.
  revert k. induction l as [|a l IH]; intros k; [discriminate|].
  cbn [removelast]. destruct l as [|b l]; [discriminate|].
  destruct k as [|k]; [exact id|]. cbn [lookup list_lookup]. apply IH.
Qed.

Lemma insert_setCoins_ids (caches : list Cache.t) (index : nat) c
  (coins : list Coin.t) :
  caches !! index = Some c ->
  map Cache.id (<[index := setCoins c coins]> caches) = map Cache.id caches.
Proof.
  revert index. induction caches as [|c0 caches IH]; intros [|index] Hk;
    try discriminate.
  - injection Hk as ->. reflexivity.
  - cbn [map]. change (<[S index := ?x]> (c0 :: caches))
      with (c0 :: <[index := x]> caches).
    cbn [map]. rewrite (IH index Hk). reflexivity.
Qed.

Lemma handleCollect_tidy (index : nat) g :
  tidy g -> tidy (fst (handleCollect index g)).
Proof.
  intros [Hids Hnum]. unfold handleCollect.
  destruct (cacheLocations g !! index) as [cache|] eqn:Hk;
    [|split; assumption].
  destruct (0 <? length (Cache.coins cache))%nat; [|split; assumption].
  cbn [fst]. split; cbn [cacheLocations].
  - rewrite insert_setCoins_ids by exact Hk. exact Hids.
  - intros i c Hc. apply list_lookup_insert_Some in Hc
      as [(<- & <- & _) | (Hne & Hc)]; [|exact (Hnum i c Hc)].
    intros k coin Hcoin. cbn [setCoins Cache.coins Cache.cell] in *.
    apply removelast_lookup in Hcoin. exact (Hnum index cache Hk k coin Hcoin).
Qed.

Lemma handleDeposit_tidy (index : nat) g :
  tidy g -> tidy (fst (handleDeposit index g)).
Proof.
  intros [Hids Hnum]. unfold handleDeposit.
  destruct (0 <? playerCoins g); [|split; assumption].
  destruct (cacheLocations g !! index) as [cache|] eqn:Hk;
    [|split; assumption].
  cbn [fst]. split; cbn [cacheLocations].
  - rewrite insert_setCoins_ids by exact Hk. exact Hids.
  - intros i c Hc. apply list_lookup_insert_Some in Hc
      as [(<- & <- & _) | (Hne & Hc)]; [|exact (Hnum i c Hc)].
    intros k coin Hcoin. cbn [setCoins Cache.coins Cache.cell] in *.
    apply lookup_app_Some in Hcoin as [Hold | [Hlen Hnew]].
    + exact (Hnum index cache Hk k coin Hold).
    + destruct (k - length (Cache.coins cache))%nat as [|d] eqn:Hd;
        [|discriminate].
      injection Hnew as <-. right. cbn [Coin.id]. unfold mintedId.
      replace k with (length (Cache.coins cache)) by lia. reflexivity.
Qed.

Lemma click_games (index : nat) ss :
  (game (fst (App.onCollectClick index ss)) = game ss \/
   game (fst (App.onCollectClick index ss)) =
     fst (handleCollect index (game ss))) /\
  (game (fst (App.onDepositClick index ss)) = game ss \/
   game (fst (App.onDepositClick index ss)) =
     fst (handleDeposit index (game ss))).
Proof.
  unfold App.onCollectClick, App.onDepositClick. split.
  - destruct (handleCollect index (game ss)) as [g [msg|]];
      [|left; reflexivity].
    destruct (cacheLocations g !! index); right; reflexivity.
  - destruct (handleDeposit index (game ss)) as [g [msg|]];
      [|left; reflexivity].
    destruct (cacheLocations g !! index); right; reflexivity.
Qed.

Lemma resetGame_game (ss ss' : Session) (report : signal) :
  App.resetGame M luck true ss = Some (ss', report) ->
  exists caches,
    mapM (initialCache M luck OAKES_CLASSROOM 100) (seq 0 5) = Some caches /\
    ss' = mkSession (mkGame 0 OAKES_CLASSROOM caches
                            (geocacheMementos (game ss)))
                    [] None (geolocationActive ss) (watchers ss).
Proof.
  unfold App.resetGame, initializeCacheLocations.
  destruct (mapM _ _) as [caches|]; [|discriminate].
  intros [= <- _]. exists caches. split; reflexivity.
Qed.

Lemma initial_tidy (caches : list Cache.t) (purse : Z) (p : LatLng.t)
  (m : gmap string string) (center : LatLng.t) (radius : Q) :
  mapM (initialCache M luck center radius) (seq 0 5) = Some caches ->
  tidy (mkGame purse p caches m).
Proof.
  intros [Hids Hshape]%initialCaches_shape. split; cbn [cacheLocations].
  - rewrite Hids. reflexivity.
  - intros index c Hc.
    rewrite Forall_lookup in Hshape.
    destruct (Hshape index c Hc) as [n ->]. apply cacheWith_numbered.
Qed.

Lemma step_tidy ss ss' : step M luck ss ss' -> tidy (game ss) -> tidy (game ss').
Proof.
  intros Hstep Ht. destruct Hstep as
    [d ss ss' Hm | la lo ss ss' Hp | index ss | index ss | ss
    | supported ss | confirmReset ss ss' report Hr].
  - destruct (movePlayer_effect M luck d ss ss' Hm)
      as (_ & _ & _ & _ & _ & g & Hg & ->).
    unfold movePlayer in Hg. exact (pass_tidy _ _ Hg).
  - unfold App.handleGeolocationUpdate in Hp.
    destruct (updateCacheLocations _ _ _) as [g|] eqn:Hg; [|discriminate].
    injection Hp as <-. exact (pass_tidy _ _ Hg).
  - destruct (click_games index ss) as [[-> | ->] _];
      [exact Ht | apply handleCollect_tidy, Ht].
  - destruct (click_games index ss) as [_ [-> | ->]];
      [exact Ht | apply handleDeposit_tidy, Ht].
  - exact Ht.
  - unfold App.toggleGeolocation.
    destruct (geolocationActive ss); [exact Ht|].
    destruct supported; exact Ht.
  - destruct confirmReset.
    + apply resetGame_game in Hr as (caches & Hc & ->).
      exact (initial_tidy _ _ _ _ _ _ Hc).
    + injection Hr as <- _. exact Ht.
Qed.

Lemma boot_game (stored : option GameState.t) (ss0 : Session) :
  App.boot M luck stored = Some ss0 ->
  exists g, updateCacheLocations M luck g = Some (game ss0) /\
            playerCoins g =
              match stored with
              | Some gameState => orZero (GameState.playerCoins gameState)
              | None => 0
              end.
Proof.
  unfold App.boot, initializeCacheLocations.
  destruct (mapM _ _) as [caches|]; [|discriminate].
  destruct (updateCacheLocations _ _ _) as [g1|] eqn:H1; [|discriminate].
  unfold App.loadGameState. cbn [localStorage game].
  destruct stored as [gameState|].
  - destruct (updateCacheLocations M luck (mkGame _ _ _ _)) as [g2|] eqn:H2;
      [|discriminate].
    intros [= <-]. eexists. split; [exact H2 | reflexivity].
  - intros [= <-]. eexists. split; [exact H1 | reflexivity].
Qed.

Lemma reachable_tidy (stored : option GameState.t) ss :
  reachable M luck stored ss -> tidy (game ss).
Proof.
  intros (ss0 & Hboot & Hsteps).
  apply boot_game in Hboot as (g & Hg & _). apply pass_tidy in Hg.
  induction Hsteps as [|ss1 ss2 ss3 H12 _ IH]; [exact Hg|].
  apply IH. exact (step_tidy _ _ H12 Hg).
Qed.

Lemma append_inj (p a b : string) : p +:+ a = p +:+ b -> a = b.
Proof.
  induction p as [|c p IH]; [exact id|]. cbn. intros [= H]. exact (IH H).
Qed.

Lemma mintedId_inj (index k k' : nat) :
  mintedId index k = mintedId index k' -> k = k'.
Proof.
  unfold mintedId. intros H.
  do 3 apply append_inj in H. exact (inj pretty _ _ H).
Qed.

Lemma coinId_not_minted (cell : Cell.t) (k index k' : nat) :
  coinId cell k <> mintedId index k'.
Proof.
  unfold coinId, mintedId.
  destruct (pretty_Z_shape (Cell.i cell)) as (d & [Hall Hne] & _ & ->).
  destruct (Cell.i cell <? 0); [discriminate|].
  destruct d as [|c0 d]; [congruence|].
  cbn [allChars] in Hall. apply andb_prop in Hall as [Hc0 _].
  cbn. intros [= -> _]. discriminate.
Qed.

Lemma numbered_NoDup (index : nat) c :
  numbered index c -> NoDup (map Coin.id (Cache.coins c)).
Proof.
  intros Hnum. change (map ?f ?l) with (f <$> l).
  apply NoDup_alt. intros i j x.
  rewrite !list_lookup_fmap.
  intros (ci & Hi & ->)%fmap_Some (cj & Hj & Heq)%fmap_Some.
  destruct (Hnum i ci Hi) as [Hci | Hci], (Hnum j cj Hj) as [Hcj | Hcj];
    rewrite Hci, Hcj in Heq.
  - apply coinId_inj in Heq as [_ H]. exact H.
  - exfalso. exact (coinId_not_minted _ _ _ _ Heq).
  - exfalso. symmetry in Heq. exact (coinId_not_minted _ _ _ _ Heq).
  - exact (mintedId_inj _ _ _ Heq).
Qed.


End Shapes.

(** X13. In every session that can be reached from loading the page,
    whatever was in the storage: there are at most five live caches,
    their ids are distinct and are, in order, among cache-0 .. cache-4;
    and within each live cache no two coins have the same id. *)
Theorem reachable_ids_distinct
  (M : Math.lib) (luck : string -> Q) (stored : option GameState.t)
  (ss : Session) :
  reachable M luck stored ss ->
  (length (cacheLocations (game ss)) <= 5)%nat /\
  map Cache.id (cacheLocations (game ss))
    `sublist_of` map cacheIdOf (seq 0 5) /\
  NoDup (map Cache.id (cacheLocations (game ss))) /\
  Forall (fun c => NoDup (map Coin.id (Cache.coins c)))
         (cacheLocations (game ss)).
Proof.
  intros [Hids Hnum]%reachable_tidy.
  split; [|split; [exact Hids | split]].
  - apply sublist_length in Hids. rewrite !length_map, length_seq in Hids.
    exact Hids.
  - exact (sublist_NoDup _ _ slot_ids_NoDup Hids).
  - apply Forall_lookup. intros index c Hc.
    exact (numbered_NoDup index c (Hnum index c Hc)).
Qed.

Lemma reachable_ids_distinct_witness :
  NoDup (map Cache.id (cacheLocations (game clickedSession))).
Proof.
  refine (proj1 (proj2 (proj2
    (reachable_ids_distinct polyMath demoLuck None clickedSession _)))).
  exists bootedSession. split; [vm_compute; reflexivity|].
  apply (rtc_l _ _ (fst (App.onCollectClick 0 bootedSession)));
    [apply step_collect|].
  apply (rtc_l _ _ clickedSession); [apply step_deposit|].
  apply rtc_refl.
Defined.



(** ** Reset, reload, geolocation, the initial caches *)

Section Decisions.

Lemma noCacheIn_dec (caches : list Cache.t) (cell : Cell.t) :
  forallb (fun c => negb (bool_decide (Cache.cell c = cell))) caches = true ->
  noCacheIn caches cell.
Proof.
  unfold noCacheIn. induction caches as [|c caches IH]; cbn [forallb];
    [constructor|].
  intros [Hc Hrest]%andb_prop. constructor; [|exact (IH Hrest)].
  apply negb_true_iff, bool_decide_eq_false in Hc. exact Hc.
Qed.


End Decisions.

(** X15. A confirmed reset empties the purse, puts the player back in
    the classroom, clears the history and the saved game and generates
    the five initial caches anew, but it keeps every memento: if the
    classroom's cell has a memento from before the reset and none of the
    new caches is in that cell, the next pass there brings up a cache
    with the count of that old memento, not a generated one. *)
Theorem resetGame_keeps_mementos
  (M : Math.lib) (luck : string -> Q) (ss ss' : Session) (report : signal) :
  App.resetGame M luck true ss = Some (ss', report) ->
  playerCoins (game ss') = 0 /\
  playerLocation (game ss') = OAKES_CLASSROOM /\
  movementHistory ss' = [] /\
  localStorage ss' = None /\
  map Cache.id (cacheLocations (game ss')) = map cacheIdOf (seq 0 5) /\
  geocacheMementos (game ss') = geocacheMementos (game ss) /\
  forall (cell cell' : Cell.t) (n k : nat) (g : Game),
    geocacheMementos (game ss) !! cacheKey cell = Some (mementoOf cell' n) ->
    Z.of_nat n <= JS.maxArrayLength ->
    noCacheIn (cacheLocations (game ss')) cell ->
    (k < 5)%nat ->
    slotCell M luck OAKES_CLASSROOM k = Some cell ->
    updateCacheLocations M luck (game ss') = Some g ->
    cacheWith cell (cacheIdOf k) n ∈ cacheLocations g.
Proof.
  intros (caches & Hc & ->)%resetGame_game.
  cbn [game playerCoins playerLocation movementHistory localStorage
       cacheLocations geocacheMementos].
  apply initialCaches_shape in Hc as [Hids _].
  do 4 (split; [reflexivity|]). split; [exact Hids|].
  split; [reflexivity|].
  intros cell cell' n k g Hm Hn Hno Hk Hslot Hpass.
  exact (restored_from_memento M luck
           (mkGame 0 OAKES_CLASSROOM caches (geocacheMementos (game ss)))
           g cell cell' n k Hm Hno Hn Hk Hslot Hpass).
Qed.

Lemma resetGame_keeps_mementos_witness :
  playerCoins (game resetSession) = 0 /\
  cacheWith oakesCell "cache-0" 1 ∈ cacheLocations afterResetPass.
Proof.
  pose proof (resetGame_keeps_mementos polyMath farLuck staleSession
                resetSession
                (Alert "Game has been reset. All coins are returned, and history is cleared.")
                ltac:(vm_compute; reflexivity))
    as (Hp & _ & _ & _ & _ & _ & Hstale).
  split; [exact Hp|].
  apply (Hstale oakesCell oakesCell 1%nat 0%nat afterResetPass).
  - vm_compute. reflexivity.
  - vm_compute. discriminate.
  - apply noCacheIn_dec. vm_compute. reflexivity.
  - lia.
  - vm_compute. reflexivity.
  - vm_compute. reflexivity.
Defined.



(** X17. The saved game holds no memento, and loading the page starts
    from none: after a reload a cell has a memento only if one of the
    five initial caches or one of the saved caches lies in it, so the
    coin count of any other cell that the player had changed is gone. *)
Theorem reload_forgets_mementos
  (M : Math.lib) (luck : string -> Q) (gameState : GameState.t)
  (g0 : Game) (ss0 : Session) (cell : Cell.t) :
  initializeCacheLocations M luck OAKES_CLASSROOM 5 100 initialGame =
    Some g0 ->
  App.boot M luck (Some gameState) = Some ss0 ->
  noCacheIn (cacheLocations g0) cell ->
  noCacheIn (map ofCacheData (GameState.cacheLocations gameState)) cell ->
  geocacheMementos (game ss0) !! cacheKey cell = None.
Proof.
  intros Hinit Hboot Hno0 Hno1. unfold App.boot in Hboot.
  rewrite Hinit in Hboot.
  assert (Hm0 : geocacheMementos g0 = ∅).
  { unfold initializeCacheLocations in Hinit.
    destruct (mapM _ _); [|discriminate]. injection Hinit as <-.
    reflexivity. }
  destruct (updateCacheLocations M luck g0) as [g1|] eqn:H1; [|discriminate].
  unfold App.loadGameState in Hboot. cbn [localStorage game] in Hboot.
  destruct (updateCacheLocations M luck (mkGame _ _ _ _)) as [g2|] eqn:H2;
    [|discriminate].
  injection Hboot as <-. cbn [game].
  rewrite (pass_keeps_memento M luck _ _ cell H2) by exact Hno1.
  cbn [geocacheMementos].
  rewrite (pass_keeps_memento M luck _ _ cell H1) by exact Hno0.
  rewrite Hm0. apply lookup_empty.
Qed.

Lemma reload_forgets_mementos_witness :
  geocacheMementos (game reloadedSession) !! cacheKey cell55 = None.
Proof.
  apply (reload_forgets_mementos polyMath demoLuck emptySave
           (mkGame 0 OAKES_CLASSROOM firstCaches ∅)).
  - vm_compute. reflexivity.
  - vm_compute. reflexivity.
  - apply noCacheIn_dec. vm_compute. reflexivity.
  - constructor.
Defined.

(** X18. With a value generator within [0, 1),
    [initializeCacheLocations] always returns: it appends exactly
    [numCaches] caches with the ids cache-0, cache-1, ... in order, each
    in the cell of its placed location and holding between 1 and 10
    coins with the generated ids and the cache's id as origin. *)
Theorem initializeCacheLocations_spec
  (M : Math.lib) (luck : string -> Q) (center : LatLng.t)
  (numCaches : nat) (radius : Q) (s : Game) :
  unitLuck luck ->
  exists caches : list Cache.t,
    initializeCacheLocations M luck center numCaches radius s =
      Some (setCaches s (cacheLocations s ++ caches)) /\
    map Cache.id caches = map cacheIdOf (seq 0 numCaches) /\
    Forall (fun c =>
              (1 <= length (Cache.coins c) <= 10)%nat /\
              Cache.cell c =
                Board.cellOf tileWidth
                  (placeCache M luck center radius (Cache.id c)) /\
              Cache.coins c =
                makeCoins (Cache.cell c) (Cache.id c)
                          (length (Cache.coins c)))
           caches.
Proof.
  intros Hunit.
  pose (pushed := fun k : nat =>
          cacheWith
            (Board.cellOf tileWidth
               (placeCache M luck center radius (cacheIdOf k)))
            (cacheIdOf k)
            (Z.to_nat (generateNumberOfCoins luck (cacheIdOf k)))).
  assert (Hone : forall k, initialCache M luck center radius k =
                           Some (pushed k)).
  { intros k. unfold initialCache.
    pose proof (generated_fits luck Hunit (cacheIdOf k)) as Hfit.
    rewrite iterations_ofZ by lia. reflexivity. }
  assert (Hall : forall slots,
            mapM (initialCache M luck center radius) slots =
            Some (map pushed slots)).
  { intros slots. apply mapM_Some.
    induction slots as [|k slots IH]; cbn [map]; constructor;
      [apply Hone | exact IH]. }
  exists (map pushed (seq 0 numCaches)).
  unfold initializeCacheLocations. rewrite Hall.
  split; [reflexivity|]. split.
  - rewrite map_map. reflexivity.
  - apply Forall_map_all. intros k. unfold pushed.
    cbn [cacheWith Cache.coins Cache.cell Cache.id].
    rewrite length_makeCoins.
    destruct (Hunit (cacheIdOf k +:+ ",coins")) as [H0 H1].
    pose proof (generateNumberOfCoins_range luck (cacheIdOf k) H0 H1).
    split; [lia|]. split; reflexivity.
Qed.

Lemma initializeCacheLocations_spec_witness :
  exists caches : list Cache.t,
    initializeCacheLocations polyMath demoLuck OAKES_CLASSROOM 5 100
      initialGame = Some (setCaches initialGame caches) /\
    length caches = 5%nat.
Proof.
  destruct (initializeCacheLocations_spec polyMath demoLuck OAKES_CLASSROOM
              5 100 initialGame demoLuck_unit) as (caches & Hinit & Hids & _).
  exists caches. split; [exact Hinit|].
  apply (f_equal (@length string)) in Hids.
  rewrite !length_map in Hids. exact Hids.
Defined.

(** ** The visibility test of the pass *)

Section Visible.

Context (M : Math.lib) (luck : string -> Q).




End Visible.


